(** * CozyFS: a shallow embedding of the storage engine

    The development follows the current revision of the core (the one
    with [link_], [open_], [close_] and the user pages): the path parser,
    the relative-pointer and patch layer, the entity and handle code, the
    timeout lock, the backup restore and the transaction entry points.

    Conventions.
    - C integers are [Z]; every store truncates to the width of the
      destination ([u8], [u16], [u32], [u64]) and conversions to [int]
      wrap to 32 bits two's complement.
    - Host addresses are [Z]; [NULL] is [0].  The process memory is a
      total function from addresses to bytes; the attached buffer is the
      address range starting at [fs->mem].
    - The session structure [CozyFS] is a record handled by explicit
      state passing, together with the memory, the host state behind the
      user callback and the log of callback invocations.
    - Loops whose termination depends on the contents of the buffer
      take their bound from a fuel counter carried by the monad.
    - One attacher runs at a time: the atomic operations are plain loads
      and stores, and the host callback does not touch the memory.
    - The code is taken as it is written.  Where it makes a pointer of a
      value ([u64 *word = root->lock;], the macro [OFFSETOF]), the
      pointer is that value; an access through the null pointer stops
      the run. *)

From Stdlib Require Import ZArith Lia Bool.
From stdpp Require Import base list numbers.

Local Open Scope Z_scope.

(** ** Outcomes of a run *)

(** [Trap] is a run that stops: [__builtin_trap] (the [ASSERT] macro) or
    an access through the null pointer; [OutOfFuel] means the bound given
    to an unbounded loop was reached. *)
Inductive Res (A : Type) : Type :=
| Ret (a : A)
| Trap
| OutOfFuel.
Arguments Ret {A} a.
Arguments Trap {A}.
Arguments OutOfFuel {A}.

(** ** Error codes ([cozyfs.h]) *)

Definition COZYFS_OK        : Z := 0.
Definition COZYFS_EINVAL    : Z := 1.
Definition COZYFS_ENOMEM    : Z := 2.
Definition COZYFS_ENOENT    : Z := 3.
Definition COZYFS_EPERM     : Z := 4.
Definition COZYFS_EBUSY     : Z := 5.
Definition COZYFS_EISDIR    : Z := 6.
Definition COZYFS_ENFILE    : Z := 7.
Definition COZYFS_EBADF     : Z := 8.
Definition COZYFS_ETIMEDOUT : Z := 9.
Definition COZYFS_ECORRUPT  : Z := 10.
Definition COZYFS_ESYSFREE  : Z := 11.
Definition COZYFS_ESYSSYNC  : Z := 12.
Definition COZYFS_ESYSTIME  : Z := 13.

(** Modelled from the spec: the header under [src/] stops at
    [COZYFS_ESYSTIME]; the core also names [COZYFS_ESYSWAIT],
    [COZYFS_ESYSWAKE] and [COZYFS_ENAMETOOLONG].  The error table of the
    specification lists the host failures in this order. *)
Definition COZYFS_ESYSWAIT  : Z := 14.
Definition COZYFS_ESYSWAKE  : Z := 15.
Definition COZYFS_ENAMETOOLONG : Z := 16.

(** ** The path parser *)

Definition slash : Z := 47.
Definition dot   : Z := 46.

(** [data[i]]; the code only reads below [size]. *)
Definition byte_at (data : list Z) (i : nat) : Z := default 0 (data !! i).

(** [while (i < path.size && path.data[i] != '/') i++;]
    The loop runs at most [size - i] times, which is the bound given. *)
Fixpoint scan_loop (n : nat) (data : list Z) (size i : nat) : nat :=
  match n with
  | O => i
  | S n' =>
      if (i <? size)%nat && negb (byte_at data i =? slash)
      then scan_loop n' data size (S i)
      else i
  end.

Definition scan_component (data : list Z) (size i : nat) : nat :=
  scan_loop (size - i) data size i.

Definition is_dotdot (comp : list Z) : bool :=
  (length comp =? 2)%nat && (byte_at comp 0 =? dot) && (byte_at comp 1 =? dot).

Definition is_dot (comp : list Z) : bool :=
  (length comp =? 1)%nat && (byte_at comp 0 =? dot).

(** The body of [for (;;)] in [parse_path].  [comps] is the caller's
    array, [num] the number of live entries. *)
Fixpoint parse_loop (fuel : nat) (data : list Z) (size max i num : nat)
    (comps : list (list Z)) : Res (Z * list (list Z)) :=
  match fuel with
  | O => OutOfFuel
  | S fuel' =>
      let off := i in
      let i := scan_component data size i in
      let len := (i - off)%nat in
      if (len =? 0)%nat then Ret (- COZYFS_EINVAL, comps) (* Empty component *)
      else
        let comp := take len (drop off data) in
        let next (num : nat) (comps : list (list Z)) :=
          if (i =? size)%nat then Ret (Z.of_nat num, comps)
          else if negb (byte_at data i =? slash) then Trap (* ASSERT *)
          else
            let i := S i in
            if (i =? size)%nat then Ret (Z.of_nat num, comps)
            else parse_loop fuel' data size max i num comps in
        if is_dotdot comp then
          if (num =? 0)%nat then Ret (- COZYFS_EINVAL, comps)
          else next (num - 1)%nat comps
        else if negb (is_dot comp) then
          if (num =? max)%nat then Ret (- COZYFS_ENOMEM, comps) (* Too many components *)
          else next (S num) (<[num := comp]> comps)
        else next num comps
  end.

(** [parse_path(path, comps, max)]: the return value and the array. *)
Definition parse_path (path : list Z) (comps : list (list Z)) (max : nat)
  : Res (Z * list (list Z)) :=
  let size := length path in
  if (0 <? size)%nat && (byte_at path 0 =? slash) then
    let data := drop 1 path in
    let size := (size - 1)%nat in
    if (size =? 0)%nat then Ret (0, comps)
    else parse_loop (S size) data size max 0 0 comps
  else parse_loop (S size) path size max 0 0 comps.

(** The components a caller reads back: the first [num] entries. *)
Definition components (r : Z * list (list Z)) : list (list Z) :=
  take (Z.to_nat (fst r)) (snd r).

(** *** The parser as the specification words it *)

Definition strip_leading (p : list Z) : list Z :=
  match p with
  | c :: r => if c =? slash then r else p
  | [] => p
  end.

Definition strip_trailing (p : list Z) : list Z :=
  match list.last p with
  | Some c => if c =? slash then take (length p - 1) p else p
  | None => p
  end.

Fixpoint split_slash (p : list Z) : list (list Z) :=
  match p with
  | [] => [[]]
  | c :: r =>
      if c =? slash then [] :: split_slash r
      else match split_slash r with
           | h :: t => (c :: h) :: t
           | [] => [[c]]
           end
  end.

(** The stack is kept with its top first. *)
Fixpoint walk_spec (max : nat) (cs : list (list Z)) (stack : list (list Z))
  : Z + list (list Z) :=
  match cs with
  | [] => inr (reverse stack)
  | c :: cs' =>
      if decide (c = []) then inl COZYFS_EINVAL
      else if decide (c = [dot; dot]) then
        match stack with
        | [] => inl COZYFS_EINVAL
        | _ :: stack' => walk_spec max cs' stack'
        end
      else if decide (c = [dot]) then walk_spec max cs' stack
      else if decide (length stack = max) then inl COZYFS_ENOMEM
      else walk_spec max cs' (c :: stack)
  end.

Definition parse_path_spec (p : list Z) (max : nat) : Z + list (list Z) :=
  if decide (p = [slash]) then inr [] (* the root: no component *)
  else walk_spec max (split_slash (strip_trailing (strip_leading p))) [].

(** *** The array walk: the loop seen on the list of components *)

Definition comp_step (max : nat) (c : list Z) (num : nat) (comps : list (list Z))
  : Z + (nat * list (list Z)) :=
  if (length c =? 0)%nat then inl (- COZYFS_EINVAL)
  else if is_dotdot c then
    if (num =? 0)%nat then inl (- COZYFS_EINVAL) else inr ((num - 1)%nat, comps)
  else if negb (is_dot c) then
    if (num =? max)%nat then inl (- COZYFS_ENOMEM) else inr (S num, <[num := c]> comps)
  else inr (num, comps).

Fixpoint walk_arr (max : nat) (cs : list (list Z)) (num : nat)
    (comps : list (list Z)) : Z * list (list Z) :=
  match cs with
  | [] => (Z.of_nat num, comps)
  | c :: cs' =>
      match comp_step max c num comps with
      | inl e => (e, comps)
      | inr (num', comps') => walk_arr max cs' num' comps'
      end
  end.

(** The longest prefix without a separator. *)
Fixpoint comp_prefix (d : list Z) : list Z :=
  match d with
  | [] => []
  | c :: r => if c =? slash then [] else c :: comp_prefix r
  end.

Definition path_comps (d : list Z) : list (list Z) :=
  split_slash (strip_trailing d).

(** A component holds no separator. *)
Definition slash_free (c : list Z) : Prop := Forall (λ x, x ≠ slash) c.

(** ** Machine integers *)

Definition u8  (x : Z) : Z := x mod 2 ^ 8.
Definition u16 (x : Z) : Z := x mod 2 ^ 16.
Definition u32 (x : Z) : Z := x mod 2 ^ 32.
Definition u64 (x : Z) : Z := x mod 2 ^ 64.

(** Conversion to [int]: the low 32 bits, two's complement. *)
Definition to_int (x : Z) : Z :=
  let y := x mod 2 ^ 32 in if y <? 2 ^ 31 then y else y - 2 ^ 32.

Definition NULL : Z := 0.
Definition INVALID_OFFSET : Z := u32 (-1).

(** ** Memory *)

(** The address space of the attacher: one byte per address.  The
    attached buffer and the pages obtained from the host live in it. *)
Definition Mem : Type := Z → Z.

Definition upd (m : Mem) (a v : Z) : Mem :=
  λ x, if x =? a then v else m x.

(** Little-endian loads and stores of [n] bytes. *)
Fixpoint loadn (n : nat) (m : Mem) (a : Z) : Z :=
  match n with
  | O => 0
  | S n' => m a + 256 * loadn n' m (a + 1)
  end.

Fixpoint storen (n : nat) (m : Mem) (a v : Z) : Mem :=
  match n with
  | O => m
  | S n' => storen n' (upd m a (v mod 256)) (a + 1) (v / 256)
  end.

Definition load8  := loadn 1.
Definition load16 := loadn 2.
Definition load32 := loadn 4.
Definition load64 := loadn 8.
Definition store8  := storen 1.
Definition store16 := storen 2.
Definition store32 := storen 4.
Definition store64 := storen 8.

(** [my_memcpy]: a forward byte loop. *)
Fixpoint memcpy_loop (n : nat) (m : Mem) (dst src i : Z) : Mem :=
  match n with
  | O => m
  | S n' => memcpy_loop n' (upd m (dst + i) (m (src + i))) dst src (i + 1)
  end.

Definition my_memcpy (m : Mem) (dst src len : Z) : Mem :=
  memcpy_loop (Z.to_nat len) m dst src 0.

(** [my_memcpy] from a caller's string (kept as a list) into memory. *)
Fixpoint store_bytes (m : Mem) (dst : Z) (l : list Z) : Mem :=
  match l with
  | [] => m
  | b :: l' => store_bytes (upd m dst (u8 b)) (dst + 1) l'
  end.

Fixpoint memset_loop (n : nat) (m : Mem) (dst v i : Z) : Mem :=
  match n with
  | O => m
  | S n' => memset_loop n' (upd m (dst + i) v) dst v (i + 1)
  end.

Definition my_memset (m : Mem) (dst v len : Z) : Mem :=
  memset_loop (Z.to_nat len) m dst (u8 v) 0.

(** [memeq(name.data, p2, name.size)] with the first operand a caller's
    string. *)
Fixpoint memeq (name : list Z) (m : Mem) (p2 : Z) : bool :=
  match name with
  | [] => true
  | b :: name' => if u8 b =? m p2 then memeq name' m (p2 + 1) else false
  end.

(** A C string handed in by the caller: the bytes before the first NUL. *)
Fixpoint cstring (l : list Z) : list Z :=
  match l with
  | [] => []
  | b :: l' => if b =? 0 then [] else b :: cstring l'
  end.

(** ** Layout of the persistent structures

    The offsets follow from the field order, the natural alignment of the
    x86-64 targets of the source and the [STATIC_ASSERT]s on the sizes. *)

Definition PAGE : Z := 4096.

(* Entity, 24 bytes *)
Definition Entity_refs       : Z := 0.
Definition Entity_flags      : Z := 4.
Definition Entity_head       : Z := 8.
Definition Entity_tail       : Z := 12.
Definition Entity_owner      : Z := 16.
Definition Entity_head_start : Z := 20.
Definition Entity_tail_end   : Z := 22.
Definition sizeof_Entity     : Z := 24.

Definition ENTITY_DIR  : Z := 1.
Definition ENTITY_FILE : Z := 2.

(* Link, 132 bytes *)
Definition Link_off    : Z := 0.
Definition Link_name   : Z := 4.
Definition sizeof_Link : Z := 132.
Definition MAX_NAME    : Z := 128.

(* DPage *)
Definition DPage_prev  : Z := 16.
Definition DPage_next  : Z := 20.
Definition DPage_links : Z := 24.
Definition DPage_ents  : Z := 24 + 26 * 132.
Definition COUNT_links : Z := 26.
Definition COUNT_ents  : Z := 26.

(* Handle, 12 bytes *)
Definition Handle_used   : Z := 0.
Definition Handle_gen    : Z := 2.
Definition Handle_entity : Z := 4.
Definition Handle_cursor : Z := 8.
Definition sizeof_Handle : Z := 12.

(* User, 32 bytes; UPage; XPage *)
Definition User_id       : Z := 0.
Definition User_name     : Z := 2.
Definition sizeof_User   : Z := 32.
Definition MAX_USER_NAME : Z := 30.
Definition UPage_prev    : Z := 4.
Definition UPage_next    : Z := 8.
Definition UPage_users   : Z := 12.
Definition COUNT_users   : Z := 127.
Definition XPage_next    : Z := 0.

(* RPage *)
Definition RPage_gen              : Z := 0.
Definition RPage_lock             : Z := 8.
Definition RPage_backup           : Z := 16.
Definition RPage_last_backup_time : Z := 24.
Definition RPage_next_account_id  : Z := 32.
Definition RPage_dpages           : Z := 36.
Definition RPage_hpages           : Z := 40.
Definition RPage_head_upage       : Z := 44.
Definition RPage_tail_upage       : Z := 48.
Definition RPage_tail_upage_used  : Z := 52.
Definition RPage_free_pages       : Z := 56.
Definition RPage_tot_pages        : Z := 60.
Definition RPage_num_pages        : Z := 64.
Definition RPage_root             : Z := 68.
Definition RPage_handles          : Z := 92.
Definition COUNT_handles          : Z := 333.

Definition BACKUP_NO            : Z := -1.
Definition BACKUP_HALF_ACTIVE   : Z := 1.
Definition BACKUP_HALF_INACTIVE : Z := 0.

(** ** The session *)

Inductive Transaction : Type :=
| TRANSACTION_OFF
| TRANSACTION_ON
| TRANSACTION_TIMEOUT.

Global Instance Transaction_eq_dec : EqDecision Transaction.
Proof. solve_decision. Defined.

Definition COZYFS_MAX_PATCHES : nat := 128.

(** [CozyFS].  The callback and its context pointer are the host of the
    section below; the [user] field, which the source never reads, is
    left out.  The two arrays have [COZYFS_MAX_PATCHES] entries. *)
Record CozyFS : Type := mkCozyFS {
  mem         : Z;
  ticket      : Z;
  transaction : Transaction;
  patch_count : nat;
  patch_offs  : list Z;
  patch_ptrs  : list Z;
}.

Definition set_ticket (fs : CozyFS) (t : Z) : CozyFS :=
  mkCozyFS (mem fs) t (transaction fs) (patch_count fs) (patch_offs fs) (patch_ptrs fs).

Definition set_transaction (fs : CozyFS) (t : Transaction) : CozyFS :=
  mkCozyFS (mem fs) (ticket fs) t (patch_count fs) (patch_offs fs) (patch_ptrs fs).

Definition set_patch_count (fs : CozyFS) (n : nat) : CozyFS :=
  mkCozyFS (mem fs) (ticket fs) (transaction fs) n (patch_offs fs) (patch_ptrs fs).

Definition add_patch (fs : CozyFS) (ptr off : Z) : CozyFS :=
  mkCozyFS (mem fs) (ticket fs) (transaction fs) (S (patch_count fs))
    (<[patch_count fs := off]> (patch_offs fs))
    (<[patch_count fs := ptr]> (patch_ptrs fs)).

Definition patch_ptr (fs : CozyFS) (i : nat) : Z := default 0 (patch_ptrs fs !! i).
Definition patch_off (fs : CozyFS) (i : nat) : Z := default 0 (patch_offs fs !! i).

(** ** System operations *)

Inductive SysOp : Type :=
| COZYFS_SYSOP_MALLOC
| COZYFS_SYSOP_FREE
| COZYFS_SYSOP_WAIT
| COZYFS_SYSOP_WAKE
| COZYFS_SYSOP_SYNC
| COZYFS_SYSOP_TIME.

Definition COZYFS_SYSRES_OK : Z := 0.

(** ** Running state and monad *)

(** What a call can touch: the session, the memory, the state of the host
    behind the callback, and the log of the system operations issued. *)
Record State (H : Type) : Type := mkState {
  fs     : CozyFS;
  memory : Mem;
  host   : H;
  calls  : list (SysOp * Z * Z);
}.
Arguments mkState {H}.
Arguments fs {H}.
Arguments memory {H}.
Arguments host {H}.
Arguments calls {H}.

(** A computation reads the loop bound, threads the state and may trap. *)
Definition M (H A : Type) : Type := nat → State H → Res (A * State H).

Definition ret {H A} (a : A) : M H A := λ _ s, Ret (a, s).

Definition bind {H A B} (c : M H A) (k : A → M H B) : M H B :=
  λ n s, match c n s with
         | Ret (a, s') => k a n s'
         | Trap => Trap
         | OutOfFuel => OutOfFuel
         end.

Notation "'let*' x ':=' c 'in' k" := (bind c (λ x, k))
  (at level 10, x name, c at level 100, k at level 200).
Notation "c ;; k" := (bind c (λ _, k))
  (at level 100, k at level 200, right associativity).

Definition trap {H A} : M H A := λ _ _, Trap.
Definition out_of_fuel {H A} : M H A := λ _ _, OutOfFuel.
Definition get_fuel {H} : M H nat := λ n s, Ret (n, s).
Definition get_fs {H} : M H CozyFS := λ _ s, Ret (fs s, s).
Definition put_fs {H} (f : CozyFS) : M H unit :=
  λ _ s, Ret (tt, mkState f (memory s) (host s) (calls s)).
Definition get_mem {H} : M H Mem := λ _ s, Ret (memory s, s).
Definition put_mem {H} (m : Mem) : M H unit :=
  λ _ s, Ret (tt, mkState (fs s) m (host s) (calls s)).

(** Typed accesses through a pointer. *)
Definition rd8  {H} (p : Z) : M H Z := let* m := get_mem in ret (load8 m p).
Definition rd16 {H} (p : Z) : M H Z := let* m := get_mem in ret (load16 m p).
Definition rd32 {H} (p : Z) : M H Z := let* m := get_mem in ret (load32 m p).
Definition rd64 {H} (p : Z) : M H Z := let* m := get_mem in ret (load64 m p).
Definition rdint {H} (p : Z) : M H Z := let* m := get_mem in ret (to_int (load32 m p)).
Definition wr8  {H} (p v : Z) : M H unit := let* m := get_mem in put_mem (store8 m p v).
Definition wr16 {H} (p v : Z) : M H unit := let* m := get_mem in put_mem (store16 m p v).
Definition wr32 {H} (p v : Z) : M H unit := let* m := get_mem in put_mem (store32 m p v).
Definition wr64 {H} (p v : Z) : M H unit := let* m := get_mem in put_mem (store64 m p v).

(** [while (i < bound && cond(i)) i++], from [i]. *)
Fixpoint scan_from (cond : nat → bool) (k i : nat) : nat :=
  match k with
  | O => i
  | S k' => if cond i then scan_from cond k' (S i) else i
  end.

Definition scan_while (bound : nat) (cond : nat → bool) : nat :=
  scan_from cond bound 0.

(** [my_strlen] on memory: the loop has no bound of its own. *)
Fixpoint strlen_loop (n : nat) (m : Mem) (str : Z) (len : Z) : option Z :=
  match n with
  | O => None
  | S n' => if m (str + len) =? 0 then Some len
            else strlen_loop n' m str (len + 1)
  end.

Definition my_strlen {H} (str : Z) : M H Z :=
  if str =? NULL then ret 0
  else
    let* n := get_fuel in
    let* m := get_mem in
    match strlen_loop n m str 0 with
    | Some len => ret (u32 len)
    | None => out_of_fuel
    end.

Section Core.

Context {H : Type}.

(** The user callback [fs->callback(sysop, fs->userptr, p, n)]; the
    context pointer is the host state. *)
Variable callback : SysOp → Z → Z → H → Z * H.

(** The copy of [perform_backup], whose arguments the source leaves
    unwritten ([my_memcpy(???)]): root pointer and memory in, memory out. *)
Variable backup_copy : Z → Mem → Mem.

Local Abbreviation M := (M H).

Definition sys_call (op : SysOp) (p n : Z) : M Z :=
  λ _ s,
    let (r, h) := callback op p n (host s) in
    Ret (u64 r, mkState (fs s) (memory s) h (calls s ++ [(op, p, n)])).

(** *** User callback wrappers *)

Definition sys_malloc (len : Z) : M Z :=
  sys_call COZYFS_SYSOP_MALLOC NULL len.

Definition sys_free (ptr len : Z) : M Z :=
  let* r := sys_call COZYFS_SYSOP_FREE ptr len in
  if r =? 0 then ret (- COZYFS_ESYSFREE) else ret COZYFS_OK.

(** The source leaves the arguments of the two calls below unwritten; the
    word and the timeout are passed. *)
Definition sys_wait (word old_word timeout_ms : Z) : M Z :=
  let* r := sys_call COZYFS_SYSOP_WAIT word timeout_ms in
  let code := to_int r in
  if negb (code =? COZYFS_SYSRES_OK) then ret (- COZYFS_ESYSWAIT)
  else ret COZYFS_OK.

Definition sys_wake (word : Z) : M Z :=
  let* r := sys_call COZYFS_SYSOP_WAKE word 0 in
  let code := to_int r in
  if negb (code =? COZYFS_SYSRES_OK) then ret (- COZYFS_ESYSWAKE)
  else ret COZYFS_OK.

Definition sys_time : M Z := sys_call COZYFS_SYSOP_TIME NULL 0.

(** *** Atomic operations, one attacher at a time *)

Definition atomic_load (p : Z) : M Z := rd64 p.
Definition atomic_store (p v : Z) : M unit := wr64 p (u64 v).

(** An access through a pointer that the code made from a value.  The
    null pointer has no object behind it, and the access stops the run;
    any other value is an address of the flat memory. *)
Definition through {A} (p : Z) (access : M A) : M A :=
  if p =? NULL then trap else access.

(** The strong compare-exchange of the three [cmpxchg_*] wrappers. *)
Definition cmpxchg (word new_word old_word : Z) : M bool :=
  through word
    (let* cur := rd64 word in
     if cur =? old_word then wr64 word new_word ;; ret true
     else ret false).

Definition cmpxchg_acquire := cmpxchg.
Definition cmpxchg_release := cmpxchg.
Definition cmpxchg_acq_rel := cmpxchg.

(** *** Relative pointer management *)

Definition get_root : M Z :=
  let* f := get_fs in
  let root := mem f in
  let* backup := rdint (root + RPage_backup) in
  if backup =? BACKUP_HALF_INACTIVE then
    let* tot_pages := rdint (root + RPage_tot_pages) in
    ret (root + PAGE * tot_pages)
  else ret root.

Definition off2ptr (off : Z) : M Z :=
  if off =? INVALID_OFFSET then ret NULL
  else
    let byte_off := Z.land off (4096 - 1) in
    let page_off := u32 (off - byte_off) in
    let* f := get_fs in
    let i := scan_while (patch_count f) (λ i, negb (patch_off f i =? page_off)) in
    if (i <? patch_count f)%nat then ret (patch_ptr f i + byte_off)
    else ret (mem f + off).

Definition in_page (page_ptr ptr : Z) : bool :=
  (page_ptr <=? ptr) && (ptr <? page_ptr + 4096).

Definition ptr2off (ptr : Z) : M Z :=
  if ptr =? NULL then ret INVALID_OFFSET
  else
    let* f := get_fs in
    let i := scan_while (patch_count f) (λ i, negb (in_page (patch_ptr f i) ptr)) in
    if (i <? patch_count f)%nat
    then ret (u32 (patch_off f i + (ptr - patch_ptr f i)))
    else ret (u32 (ptr - mem f)).

Definition writable_addr (ptr : Z) : M Z :=
  let* f := get_fs in
  if negb (bool_decide (transaction f = TRANSACTION_OFF)) then
    (* If we already have a patch for this pointer, return it *)
    let i := scan_while (patch_count f)
               (λ i, (ptr <? patch_ptr f i) || (patch_ptr f i + 4096 <=? ptr)) in
    if (i <? patch_count f)%nat then ret ptr
    else if (patch_count f =? COZYFS_MAX_PATCHES)%nat then ret NULL
    else
      let* page_copy := sys_malloc 4096 in
      if page_copy =? NULL then ret NULL
      else
        let byte_off := u32 (Z.land (ptr - mem f) (4096 - 1)) in
        let page_ptr := ptr - byte_off in
        let* m := get_mem in
        put_mem (my_memcpy m page_copy page_ptr 4096) ;;
        let* f := get_fs in
        put_fs (add_patch f page_copy byte_off) ;;
        ret (page_copy + byte_off)
  else ret ptr.

(** *** Directory and file management *)

(** The source leaves the body unwritten and returns nothing; a caller
    that uses the value has no defined behaviour, and the run stops. *)
Definition find_unused_entity : M Z := trap.

Definition free_entity (entity : Z) : M Z :=
  let* writable_entity := writable_addr entity in
  if writable_entity =? NULL then ret (- COZYFS_ENOMEM)
  else
    let* refs := rd32 (writable_entity + Entity_refs) in
    wr32 (writable_entity + Entity_refs) (u32 (refs - 1)) ;;
    let* refs := rd32 (writable_entity + Entity_refs) in
    if 0 <? refs then ret COZYFS_OK
    else (* TODO *) ret COZYFS_OK.

Definition link_at (dpage : Z) (i : nat) : Z :=
  dpage + DPage_links + sizeof_Link * Z.of_nat i.

(** The inner loop of [find_entity] over the links of one page:
    [inl p] is the early [return], [inr i] the index the loop stops at. *)
Fixpoint links_loop (k : nat) (name : list Z) (dpage : Z) (i : nat) : M (Z + nat) :=
  match k with
  | O => ret (inr i)
  | S k' =>
      let* off := rd32 (link_at dpage i + Link_off) in
      if negb (off =? INVALID_OFFSET) then
        let* n := my_strlen (link_at dpage i + Link_name) in
        let link_name_len := to_int n in
        let* m := get_mem in
        if (Z.of_nat (length name) =? link_name_len)
           && memeq name m (link_at dpage i + Link_name)
        then
          let* off := rd32 (link_at dpage i + Link_off) in
          let* p := off2ptr off in
          ret (inl p)
        else links_loop k' name dpage (S i)
      else ret (inr i)
  end.

(** [while (dpage) { ... dpage = off2ptr(fs, dpage->next); }]:
    [inl p] is the early [return], [inr (dpage, i)] the state at exit. *)
Fixpoint pages_loop (n : nat) (name : list Z) (dpage : Z) (i : nat) : M (Z + Z * nat) :=
  match n with
  | O => out_of_fuel
  | S n' =>
      if negb (dpage =? NULL) then
        let* r := links_loop (Z.to_nat COUNT_links) name dpage 0 in
        match r with
        | inl p => ret (inl p)
        | inr i =>
            let* next := rd32 (dpage + DPage_next) in
            let* dpage := off2ptr next in
            pages_loop n' name dpage i
        end
      else ret (inr (dpage, i))
  end.

Definition find_entity (parent : Z) (name : list Z) : M Z :=
  let* head := rd32 (parent + Entity_head) in
  let* dpage := off2ptr head in
  let* n := get_fuel in
  let* r := pages_loop n name dpage 0 in
  match r with
  | inl p => ret p
  | inr _ => ret NULL
  end.

Definition ent_at (dpage : Z) (j : nat) : Z :=
  dpage + DPage_ents + sizeof_Entity * Z.of_nat j.

Definition create_entity (parent target : Z) (name : list Z) (flags : Z) : M Z :=
  if MAX_NAME <? Z.of_nat (length name) then ret (- COZYFS_EINVAL)
  else
    let* entity := find_entity parent name in
    (* if (entity) { TODO: Entity exists already } *)
    let* tail_off := rd32 (parent + Entity_tail) in
    let* tail := off2ptr tail_off in
    let* m := get_mem in
    let i := scan_while (Z.to_nat COUNT_links)
               (λ i, negb (load32 m (link_at tail i + Link_off) =? INVALID_OFFSET)) in
    (* if (i == COUNT(tail->links)) { TODO: Tail is full } *)
    let* writable_tail := writable_addr tail in
    if writable_tail =? NULL then ret (- COZYFS_ENOMEM)
    else
      let finish : M Z :=
        let* m := get_mem in
        put_mem (my_memset m (link_at writable_tail i + Link_name) 0 MAX_NAME) ;;
        let* m := get_mem in
        put_mem (store_bytes m (link_at writable_tail i + Link_name) name) ;;
        ret COZYFS_OK in
      if negb (target =? NULL) then
        let* writable_target := writable_addr target in
        if writable_target =? NULL then ret (- COZYFS_ENOMEM)
        else
          let* refs := rd32 (writable_target + Entity_refs) in
          wr32 (writable_target + Entity_refs) (u32 (refs + 1)) ;;
          let* off := ptr2off target in
          wr32 (link_at writable_tail i + Link_off) off ;;
          finish
      else
        let* m := get_mem in
        let j := scan_while (Z.to_nat COUNT_ents)
                   (λ j, 0 <? load32 m (ent_at writable_tail j + Entity_refs)) in
        let* ent :=
          if (j =? Z.to_nat COUNT_ents)%nat then
            (* TODO: Current dpage is full of entities *)
            let* ent := find_unused_entity in
            if ent =? NULL then ret (inl (- COZYFS_ENOMEM)) else ret (inr ent)
          else ret (inr (ent_at writable_tail j)) in
        match ent with
        | inl code => ret code
        | inr ent =>
            let* off := ptr2off ent in
            wr32 (link_at writable_tail i + Link_off) off ;;
            wr32 (ent + Entity_refs) 1 ;;
            wr32 (ent + Entity_head) INVALID_OFFSET ;;
            wr32 (ent + Entity_tail) INVALID_OFFSET ;;
            wr16 (ent + Entity_head_start) 0 ;;
            wr16 (ent + Entity_tail_end) 0 ;;
            finish
        end.

Definition remove_entity (parent : Z) (name : list Z) (flags : Z) : M Z :=
  let* head := rd32 (parent + Entity_head) in
  let* dpage := off2ptr head in
  let* n := get_fuel in
  let* r := pages_loop n name dpage 0 in
  match r with
  | inl p => ret (to_int p) (* return off2ptr(fs, dpage->links[i].off); *)
  | inr (dpage, i) =>
      if dpage =? NULL then ret (- COZYFS_ENOENT)
      else
        let link := link_at dpage i in
        let* off := rd32 (link + Link_off) in
        let* entity := off2ptr off in
        let* writable_parent := writable_addr parent in
        if writable_parent =? NULL then ret COZYFS_ENOMEM
        else
          let* writable_dpage := writable_addr dpage in
          if writable_dpage =? NULL then ret (- COZYFS_ENOMEM)
          else
            let* code := free_entity entity in
            if negb (code =? COZYFS_OK) then ret code
            else
              let* tail_off := rd32 (parent + Entity_tail) in
              let* tail := off2ptr tail_off in
              let* tail_end := rd16 (writable_parent + Entity_tail_end) in
              wr16 (writable_parent + Entity_tail_end) (u16 (tail_end - 1)) ;;
              let* tail_end := rd16 (writable_parent + Entity_tail_end) in
              let* m := get_mem in
              put_mem (my_memcpy m (link_at writable_dpage i)
                         (tail + DPage_links + sizeof_Link * tail_end) sizeof_Link) ;;
              ret COZYFS_OK
  end.

(** *** User management *)

Definition allocate_page : M Z :=
  let* root := get_root in
  let* free_pages := rd32 (root + RPage_free_pages) in
  let* num_pages := rdint (root + RPage_num_pages) in
  let* tot_pages := rdint (root + RPage_tot_pages) in
  if (free_pages =? INVALID_OFFSET) && (num_pages =? tot_pages) then ret NULL
  else
    let* writable_root := writable_addr root in
    if writable_root =? NULL then ret NULL
    else
      let* free_pages := rd32 (root + RPage_free_pages) in
      if free_pages =? INVALID_OFFSET then
        let* root' := get_root in
        let* num_pages := rdint (writable_root + RPage_num_pages) in
        wr32 (writable_root + RPage_num_pages) (u32 (num_pages + 1)) ;;
        ret (root' + PAGE * num_pages)
      else
        let* free_pages := rd32 (writable_root + RPage_free_pages) in
        let* p := off2ptr free_pages in
        let* xpage := writable_addr p in
        let* next := rd32 (xpage + XPage_next) in
        wr32 (writable_root + RPage_free_pages) next ;;
        ret xpage.
      (* TODO: The page here should be copied if a transaction is happening *)

Definition create_user (name : list Z) : M Z :=
  let* root := get_root in
  let name_len := Z.of_nat (length (cstring name)) in
  if MAX_USER_NAME <=? name_len then ret (- COZYFS_ENAMETOOLONG)
  else
    let* used := rd32 (root + RPage_tail_upage_used) in
    let* upage :=
      if used =? COUNT_users then
        let* writable_root := writable_addr root in
        if writable_root =? NULL then ret (inl (- COZYFS_ENOMEM))
        else
          let* upage := allocate_page in
          if upage =? NULL then ret (inl (- COZYFS_ENOMEM))
          else
            let* tail_upage := rd32 (writable_root + RPage_tail_upage) in
            wr32 (upage + UPage_prev) tail_upage ;;
            wr32 (upage + UPage_next) INVALID_OFFSET ;;
            let* off := ptr2off upage in
            wr32 (writable_root + RPage_tail_upage) off ;;
            wr32 (writable_root + RPage_tail_upage_used) 0 ;;
            ret (inr upage)
      else
        let* tail_upage := rd32 (root + RPage_tail_upage) in
        let* upage := off2ptr tail_upage in
        ret (inr upage) in
    match upage with
    | inl code => ret code
    | inr upage =>
        let* writable_root := writable_addr root in
        if writable_root =? NULL then ret (- COZYFS_ENOMEM)
        else
          let* used := rd32 (writable_root + RPage_tail_upage_used) in
          wr32 (writable_root + RPage_tail_upage_used) (u32 (used + 1)) ;;
          let user := upage + UPage_users + sizeof_User * used in
          let* id := rd32 (writable_root + RPage_next_account_id) in
          wr32 (writable_root + RPage_next_account_id) (u32 (id + 1)) ;;
          wr16 (user + User_id) (u16 id) ;;
          let* m := get_mem in
          put_mem (my_memset m (user + User_name) 0 MAX_USER_NAME) ;;
          let* m := get_mem in
          put_mem (store_bytes m (user + User_name) (cstring name)) ;;
          ret 0
    end.

(** *** File system functions *)

Definition lift_res {A} (r : Res A) : M A :=
  match r with
  | Ret a => ret a
  | Trap => trap
  | OutOfFuel => out_of_fuel
  end.

(** [string pathcomps[32]]: the local array starts out empty here; by
    [parse_path_walk] its initial content never shows in the result. *)
Definition pathcomps0 : list (list Z) := replicate 32 [].

Definition comp_at (comps : list (list Z)) (i : nat) : list Z :=
  default [] (comps !! i).

Definition pack_fd (handle : Z) : M Z :=
  let* f := get_fs in
  let root := mem f in
  let i := to_int (Z.quot (handle - (root + RPage_handles)) sizeof_Handle) in
  let* gen := rd16 (handle + Handle_gen) in
  let fd := Z.lor (to_int (gen * 2 ^ 16)) i in
  if negb (0 <=? fd) then trap (* ASSERT(fd >= 0) *)
  else ret fd.

Definition unpack_fd (fd : Z) : M Z :=
  let gen := Z.shiftr (u32 fd) 16 in
  let idx := u32 (Z.land fd 65535) in
  let* f := get_fs in
  let root := mem f in
  if COUNT_handles <=? idx then ret NULL
  else
    let handle := root + RPage_handles + sizeof_Handle * idx in
    let* hgen := rd16 (handle + Handle_gen) in
    if negb (hgen =? gen) then ret NULL
    else ret handle.

(** [for (int i = 0; i < n; i++) { e = find_entity(fs, e, comps[i]);
    if (e == NULL) return -COZYFS_ENOENT; }] *)
Fixpoint resolve (k : nat) (comps : list (list Z)) (i : nat) (entity : Z) : M (Z + Z) :=
  match k with
  | O => ret (inr entity)
  | S k' =>
      let* entity := find_entity entity (comp_at comps i) in
      if entity =? NULL then ret (inl (- COZYFS_ENOENT))
      else resolve k' comps (S i) entity
  end.

Definition link_ (oldpath newpath : list Z) : M Z :=
  let* old := lift_res (parse_path (cstring oldpath) pathcomps0 32) in
  let (oldpathnum, oldpathcomps) := old in
  if oldpathnum <? 0 then ret oldpathnum
  else
    let* new := lift_res (parse_path (cstring newpath) pathcomps0 32) in
    let (newpathnum, newpathcomps) := new in
    if newpathnum <? 0 then ret newpathnum
    else
      let* f := get_fs in
      let root := mem f in
      (* Resolve the old path *)
      let* r := resolve (Z.to_nat oldpathnum) oldpathcomps 0 (root + RPage_root) in
      match r with
      | inl code => ret code
      | inr target =>
          let* flags := rd32 (target + Entity_flags) in
          if negb (Z.land flags ENTITY_DIR =? 0) then ret (- COZYFS_EPERM)
          else if newpathnum =? 0 then ret (- COZYFS_EPERM)
          else
            (* Resolve new path up to the last parent *)
            let* r := resolve (Z.to_nat (newpathnum - 1)) newpathcomps 0 (root + RPage_root) in
            match r with
            | inl code => ret code
            | inr parent =>
                create_entity parent target
                  (comp_at newpathcomps (Z.to_nat (newpathnum - 1))) ENTITY_FILE
            end
      end.

Definition unlink_ (path : list Z) : M Z :=
  let* r := lift_res (parse_path (cstring path) pathcomps0 32) in
  let (pathnum, pathcomps) := r in
  if pathnum <? 0 then ret pathnum
  else if pathnum =? 0 then ret (- COZYFS_EPERM) (* Trying to unlink root *)
  else
    let* f := get_fs in
    let root := mem f in
    let* r := resolve (Z.to_nat (pathnum - 1)) pathcomps 0 (root + RPage_root) in
    match r with
    | inl code => ret code
    | inr parent =>
        remove_entity parent (comp_at pathcomps (Z.to_nat (pathnum - 1))) ENTITY_FILE
    end.

Definition mkdir_ (path : list Z) : M Z :=
  let* r := lift_res (parse_path (cstring path) pathcomps0 32) in
  let (pathnum, pathcomps) := r in
  if pathnum <? 0 then ret pathnum
  else
    let* f := get_fs in
    let root := mem f in
    if pathnum =? 0 then ret (- COZYFS_EPERM)
    else
      let* r := resolve (Z.to_nat (pathnum - 1)) pathcomps 0 (root + RPage_root) in
      match r with
      | inl code => ret code
      | inr parent =>
          create_entity parent NULL (comp_at pathcomps (Z.to_nat (pathnum - 1))) ENTITY_DIR
      end.

Definition rmdir_ (path : list Z) : M Z :=
  let* r := lift_res (parse_path (cstring path) pathcomps0 32) in
  let (pathnum, pathcomps) := r in
  if pathnum <? 0 then ret pathnum
  else if pathnum =? 0 then ret (- COZYFS_EPERM) (* Trying to unlink root *)
  else
    let* f := get_fs in
    let root := mem f in
    let* r := resolve (Z.to_nat (pathnum - 1)) pathcomps 0 (root + RPage_root) in
    match r with
    | inl code => ret code
    | inr parent =>
        remove_entity parent (comp_at pathcomps (Z.to_nat (pathnum - 1))) ENTITY_DIR
    end.

Definition mkusr (name : list Z) : M Z := create_user name.

Definition handle_at (root : Z) (i : nat) : Z :=
  root + RPage_handles + sizeof_Handle * Z.of_nat i.

Definition open_ (path : list Z) : M Z :=
  let* r := lift_res (parse_path (cstring path) pathcomps0 32) in
  let (pathnum, pathcomps) := r in
  if pathnum <? 0 then ret pathnum
  else
    (* Follow the path to the entity *)
    let* f := get_fs in
    let root := mem f in
    let* r := resolve (Z.to_nat (pathnum - 1)) pathcomps 0 (root + RPage_root) in
    match r with
    | inl code => ret code
    | inr entity =>
        (* "open" only works on files *)
        let* flags := rd32 (entity + Entity_flags) in
        if negb (Z.land flags ENTITY_DIR =? 0) then ret (- COZYFS_EISDIR)
        else
          (* Find an unused handle *)
          let* m := get_mem in
          let i := scan_while (Z.to_nat COUNT_handles)
                     (λ i, negb (load8 m (handle_at root i + Handle_used) =? 0)) in
          (* Handle limit reached *)
          if (i =? Z.to_nat COUNT_handles)%nat || (2 ^ 16 <=? Z.of_nat i)
          then ret (- COZYFS_ENFILE)
          else
            let* handle := writable_addr (handle_at root i) in
            if handle =? NULL then ret (- COZYFS_ENOMEM)
            else
              let* off := ptr2off entity in
              wr32 (handle + Handle_entity) off ;;
              wr8 (handle + Handle_used) 1 ;;
              pack_fd handle
    end.

(** [gen++] on the [u16] field, then the test of the source:
    [gen == 0 || gen == (u64) -1]. *)
Definition next_gen (gen : Z) : Z :=
  let gen := u16 (gen + 1) in
  if (gen =? 0) || (gen =? u64 (-1)) then 1 else gen.

Definition close_ (fd : Z) : M Z :=
  let* handle := unpack_fd fd in
  if handle =? NULL then ret (- COZYFS_EBADF)
  else
    let* off := rd32 (handle + Handle_entity) in
    let* entity := off2ptr off in
    let* flags := rd32 (entity + Entity_flags) in
    if Z.land flags ENTITY_FILE =? 0 then ret (- COZYFS_EINVAL)
    else
      let* writable_handle := writable_addr handle in
      if writable_handle =? NULL then ret (- COZYFS_ENOMEM)
      else
        let* code := free_entity entity in
        if negb (code =? COZYFS_OK) then ret code
        else
          wr8 (writable_handle + Handle_used) 0 ;;
          let* gen := rd16 (writable_handle + Handle_gen) in
          wr16 (writable_handle + Handle_gen) (next_gen gen) ;;
          ret COZYFS_OK.

(** *** File system lock *)

Definition load (p : Z) : M Z := through p (rd64 p).
Definition fence : M unit := ret tt.

(** [root->lock] as the three lock functions use it: [u64 *word =
    root->lock;] makes a pointer of what the field holds, it does not
    take the address of the field, and [unlock] passes [root->lock] to
    the compare-exchange in the same way.  The earlier revision wrote
    [&root->lock]. *)
Definition lock_value : M Z :=
  let* f := get_fs in
  rd64 (mem f + RPage_lock).

(** [for (;;)] of [lock]: [inl code] is a [return] from inside the loop,
    [inr (old_word, new_word)] the [break]. *)
Fixpoint lock_loop (n : nat) (word start wait_timeout_ms acquire_timeout_sec : Z)
  : M (Z + Z * Z) :=
  match n with
  | O => out_of_fuel
  | S n' =>
      let* now := sys_time in
      if now =? 0 then ret (inl (- COZYFS_ESYSTIME))
      else
        let* old_word := load word in
        let new_word := u64 (now + acquire_timeout_sec * 1000) in
        let* r :=
          if old_word <? now then
            (* Region is unlocked. Try locking it. *)
            let* ok := cmpxchg_acquire word new_word old_word in
            if ok then ret (inr true) else ret (inr false)
          else
            let* code := sys_wait word old_word (to_int (old_word - now)) in
            if code <? 0 then ret (inl code) else ret (inr false) in
        match r with
        | inl code => ret (inl code)
        | inr true => ret (inr (old_word, new_word))
        | inr false =>
            (* Don't wait more than "wait_timeout_ms" *)
            if (0 <=? wait_timeout_ms) && (u64 wait_timeout_ms <=? u64 (now - start))
            then ret (inl (- COZYFS_ETIMEDOUT))
            else lock_loop n' word start wait_timeout_ms acquire_timeout_sec
        end
  end.

(** Returns the code and the value stored through [crash]. *)
Definition lock (wait_timeout_ms acquire_timeout_sec : Z) : M (Z * Z) :=
  let* start := sys_time in
  if start =? 0 then ret (- COZYFS_ESYSTIME, 0)
  else
    let* word := lock_value in
    let* n := get_fuel in
    let* r := lock_loop n word start wait_timeout_ms acquire_timeout_sec in
    match r with
    | inl code => ret (code, 0)
    | inr (old_word, new_word) =>
        let* f := get_fs in
        put_fs (set_ticket f new_word) ;;
        if 0 <? old_word then
          fence ;; (* If a crash happened, we missed the memory barriers *)
          ret (0, 1)
        else ret (0, 0)
    end.

Definition unlock : M Z :=
  let* word := lock_value in
  let* arg := lock_value in (* [root->lock], read again for the call *)
  let* f := get_fs in
  let* ok := cmpxchg_release arg 0 (ticket f) in
  if negb ok then ret (- COZYFS_ETIMEDOUT)
  else sys_wake word.

Definition refresh_lock (postpone_sec : Z) : M Z :=
  let* now := sys_time in
  if now =? 0 then ret (- COZYFS_ESYSTIME)
  else
    let* word := lock_value in
    let new_word := u64 (now + postpone_sec * 1000) in
    let* f := get_fs in
    let* ok := cmpxchg_acq_rel word new_word (ticket f) in
    if negb ok then ret (- COZYFS_ETIMEDOUT)
    else
      let* f := get_fs in
      put_fs (set_ticket f new_word) ;;
      ret 0.

(** *** Backup *)

Definition perform_backup (not_before_sec : Z) : M unit :=
  let* f := get_fs in
  let root := mem f in
  let* b := atomic_load (root + RPage_backup) in
  let backup := to_int b in
  if backup =? BACKUP_NO then ret tt
  else
    let* now := sys_time in
    let* last := rd64 (root + RPage_last_backup_time) in
    if now <? u64 (last + not_before_sec * 1000) then ret tt
    else
      atomic_store (root + RPage_backup) (if backup =? 0 then 1 else 0) ;;
      let* m := get_mem in
      put_mem (backup_copy root m) ;;
      atomic_store (root + RPage_last_backup_time) now.

(** The macro [OFFSETOF(TYPE, MEMBER)] casts the constant 0 to a pointer
    to [TYPE] and applies [->MEMBER] to it: it is the member of the
    object at address 0, read through the null pointer, and not the
    offset the name promises.  [member] is the place of the member in
    the structure. *)
Definition OFFSETOF (member : Z) : M Z :=
  through NULL (rdint (NULL + member)).

Definition restore_backup : M Z :=
  let* f := get_fs in
  let root := mem f in
  let* b := atomic_load (root + RPage_backup) in
  let backup := to_int b in
  if backup =? BACKUP_NO then ret 0
  else
    (* Copy the inactive region into the active (and corrupted) one.
       Don't copy the volatile fields though. *)
    let* tot_pages := rdint (root + RPage_tot_pages) in
    let active := root in
    let inactive := root + PAGE * tot_pages in
    let* off := OFFSETOF RPage_backup in
    let skip := to_int (off + 4) in (* + sizeof(root->backup) *)
    let* m := get_mem in
    put_mem (my_memcpy m (active + skip) (inactive + skip)
               (u64 (to_int (tot_pages * 4096 - skip)))) ;;
    ret 1.

(** *** Public and thread-safe interface *)

Definition enter_critical_section (wait_timeout_ms : Z) : M Z :=
  let* f := get_fs in
  match transaction f with
  | TRANSACTION_TIMEOUT => ret (- COZYFS_ETIMEDOUT)
  | TRANSACTION_ON =>
      let* code := refresh_lock 5 in
      if negb (code =? COZYFS_OK) then
        let* f := get_fs in
        put_fs (set_transaction f TRANSACTION_TIMEOUT) ;;
        ret code
      else ret COZYFS_OK
  | TRANSACTION_OFF =>
      let* r := lock wait_timeout_ms 5 in
      let (code, crash) := r in
      if negb (code =? COZYFS_OK) then ret code
      else if negb (crash =? 0) then
        (* We entered the critical section because previous acquire
           timed out. We must assume the state is invalid. *)
        let* code := restore_backup in
        if code <? 0 then unlock ;; ret code
        else ret COZYFS_OK
      else ret COZYFS_OK
  end.

Definition leave_critical_section : M unit :=
  let* f := get_fs in
  match transaction f with
  | TRANSACTION_TIMEOUT => ret tt
  | TRANSACTION_OFF => perform_backup 3 ;; unlock ;; ret tt
  | TRANSACTION_ON => ret tt
  end.

(** The shape shared by the public entry points. *)
Definition critical (body : M Z) : M Z :=
  let* code := enter_critical_section (-1) in
  if negb (code =? COZYFS_OK) then ret code
  else
    let* code := body in
    leave_critical_section ;;
    ret code.

(** [for (int i = 0; i < COUNT(root->handles); i++)] of [cozyfs_init] *)
Fixpoint init_handles (k : nat) (root : Z) (i : nat) : M unit :=
  match k with
  | O => ret tt
  | S k' =>
      wr16 (root + RPage_handles + sizeof_Handle * Z.of_nat i + Handle_gen) 1 ;;
      wr8 (root + RPage_handles + sizeof_Handle * Z.of_nat i + Handle_used) 0 ;;
      init_handles k' root (S i)
  end.

Definition cozyfs_init (mem len backup refresh : Z) : M Z :=
  (* Align to the size of a pointer *)
  let pad := Z.land (u64 (- mem)) 7 in
  if len <? pad then ret (- COZYFS_ENOMEM)
  else
    let mem := mem + pad in
    let len := len - pad in
    let len := if negb (backup =? 0) then len / 2 else len in
    let tot_pages := to_int (len / 4096) in
    if tot_pages =? 0 then ret (- COZYFS_ENOMEM)
    else
      let root := mem in
      if negb (refresh =? 0) then atomic_store (root + RPage_lock) 0 ;; ret 0
      else
        atomic_store (root + RPage_lock) 0 ;;
        atomic_store (root + RPage_backup)
          (if negb (backup =? 0) then BACKUP_HALF_ACTIVE else BACKUP_NO) ;;
        wr32 (root + RPage_dpages) INVALID_OFFSET ;;
        wr32 (root + RPage_free_pages) INVALID_OFFSET ;;
        wr32 (root + RPage_tot_pages) (u32 tot_pages) ;;
        wr32 (root + RPage_num_pages) 1 ;;
        init_handles (Z.to_nat COUNT_handles) root 0 ;;
        (if negb (backup =? 0) then
           let* m := get_mem in
           put_mem (my_memcpy m (root + PAGE * tot_pages) root
                      (u64 (to_int (tot_pages * 4096))))
         else ret tt) ;;
        ret 0.

(** The patch arrays are left as they were. *)
Definition cozyfs_attach (mem : Z) : M unit :=
  let pad := Z.land (u64 (- mem)) 7 in
  let mem := mem + pad in
  let* f := get_fs in
  put_fs (mkCozyFS mem 0 TRANSACTION_OFF 0 (patch_offs f) (patch_ptrs f)).

Definition cozyfs_mkdir (path : list Z) : M Z := critical (mkdir_ path).
Definition cozyfs_rmdir (path : list Z) : M Z := critical (rmdir_ path).
Definition cozyfs_link (oldpath newpath : list Z) : M Z := critical (link_ oldpath newpath).
Definition cozyfs_unlink (path : list Z) : M Z := critical (unlink_ path).
Definition cozyfs_mkusr (name : list Z) : M Z := critical (mkusr name).
Definition cozyfs_open (path : list Z) : M Z := critical (open_ path).
Definition cozyfs_close (fd : Z) : M Z := critical (close_ fd).

Definition cozyfs_transaction_begin : M Z :=
  let* f := get_fs in
  if negb (bool_decide (transaction f = TRANSACTION_OFF)) then ret (- COZYFS_EINVAL)
  else
    let* r := lock (-1) 5 in
    let (code, crash) := r in
    if negb (code =? COZYFS_OK) then ret code
    else
      (* if (crash) { TODO } *)
      let* f := get_fs in
      put_fs (set_transaction f TRANSACTION_ON) ;;
      ret COZYFS_OK.

(** [for (int i = 0; i < fs->patch_count; i++) sys_free(fs, fs->patch_ptrs[i], 4096);] *)
Fixpoint free_patches (k : nat) (i : nat) : M unit :=
  match k with
  | O => ret tt
  | S k' =>
      let* f := get_fs in
      sys_free (patch_ptr f i) 4096 ;;
      free_patches k' (S i)
  end.

Definition cozyfs_transaction_rollback : M Z :=
  let* f := get_fs in
  if bool_decide (transaction f = TRANSACTION_OFF) then ret (- COZYFS_EINVAL)
  else
    (* Discard changes *)
    free_patches (patch_count f) 0 ;;
    let* f := get_fs in
    put_fs (set_patch_count f 0) ;;
    unlock ;;
    let* f := get_fs in
    put_fs (set_transaction f TRANSACTION_OFF) ;;
    ret COZYFS_OK.

(** [for (...) { my_memcpy(dst, src, 4096); sys_free(fs, src, 4096); }] *)
Fixpoint apply_patches (k : nat) (i : nat) : M unit :=
  match k with
  | O => ret tt
  | S k' =>
      let* f := get_fs in
      let src := patch_ptr f i in
      let dst := patch_off f i + mem f in
      let* m := get_mem in
      put_mem (my_memcpy m dst src 4096) ;;
      sys_free src 4096 ;;
      apply_patches k' (S i)
  end.

Definition cozyfs_transaction_commit : M Z :=
  let* f := get_fs in
  match transaction f with
  | TRANSACTION_OFF => ret (- COZYFS_EINVAL)
  | TRANSACTION_TIMEOUT =>
      (* Free patches *)
      free_patches (patch_count f) 0 ;;
      let* f := get_fs in
      put_fs (set_patch_count f 0) ;;
      ret (- COZYFS_ETIMEDOUT)
  | TRANSACTION_ON =>
      (* TODO: Verify conflicts *)
      (* Apply changes and free patches *)
      apply_patches (patch_count f) 0 ;;
      let* f := get_fs in
      put_fs (set_patch_count f 0) ;;
      perform_backup 0 ;;
      unlock ;;
      let* f := get_fs in
      put_fs (set_transaction f TRANSACTION_OFF) ;;
      ret COZYFS_OK
  end.

End Core.

(** ** The host of the repository

    [cozyfs_callback_impl] of the Linux build: [mmap] hands out fresh
    pages, [munmap] succeeds, the wait, wake and sync cases fall out of
    the [switch] to [return -1], and the clock is read.  The kernel side
    is a page pointer and a clock. *)
Record Host : Type := mkHost { brk : Z; clock : Z }.

Definition cozyfs_callback_impl (sysop : SysOp) (p n : Z) (h : Host) : Z * Host :=
  match sysop with
  | COZYFS_SYSOP_MALLOC => (brk h, mkHost (brk h + PAGE * ((n + PAGE - 1) / PAGE)) (clock h))
  | COZYFS_SYSOP_FREE => (1, h)
  | COZYFS_SYSOP_WAIT => (-1, h)
  | COZYFS_SYSOP_WAKE => (-1, h)
  | COZYFS_SYSOP_SYNC => (-1, h)
  | COZYFS_SYSOP_TIME => (clock h, mkHost (brk h) (clock h + 1))
  end.

(** [perform_backup] is not reached with backup mode off; the unwritten
    copy is taken to leave the memory alone. *)
Definition no_backup_copy (root : Z) (m : Mem) : Mem := m.

(** ** Statements

    Predicates used by the theorems. *)

(** The pages recorded in the patch table lie outside the buffer of [len]
    bytes. *)
Definition patches_outside (f : CozyFS) (len : Z) : Prop :=
  ∀ i, (i < patch_count f)%nat →
       patch_ptr f i + 4096 ≤ mem f ∨ mem f + len ≤ patch_ptr f i.

Definition backup_flag {H} (s : State H) : Z :=
  to_int (load64 (memory s) (mem (fs s) + RPage_backup)).

Definition tot_pages_of {H} (s : State H) : Z :=
  to_int (load32 (memory s) (mem (fs s) + RPage_tot_pages)).

(** The address of the lock word, [&root->lock]. *)
Definition lock_field (f : CozyFS) : Z := mem f + RPage_lock.

(** ** States for the witnesses *)

(** A session in a transaction whose 128 patches are the pages the host
    handed out above the 64 KiB buffer at [65536]. *)
Definition full_session : CozyFS :=
  mkCozyFS 65536 5001 TRANSACTION_ON 128
    ((λ k, 4096 * Z.of_nat k) <$> seq 0 128)
    ((λ k, 1048576 + 4096 * Z.of_nat k) <$> seq 0 128).

Definition full_state : State Host :=
  mkState full_session (λ _, 0) (mkHost (1048576 + 4096 * 128) 2) [].

(** A session holding ticket 77824 on a buffer of 16 pages at [65536]:
    the lock word holds the ticket.  Read as an address, the ticket
    names the first eight bytes of the fourth page of the buffer. *)
Definition held_state : State Host :=
  mkState (mkCozyFS 65536 77824 TRANSACTION_OFF 0 [] [])
    (store32 (store64 (λ _, 0) (65536 + RPage_lock) 77824)
       (65536 + RPage_tot_pages) 16)
    (mkHost 1048576 2) [].

(** A two-page buffer at [65536] in backup mode: the first half carries
    last-backup-time 7, the second half 0. *)
Definition backup_state : State Host :=
  mkState (mkCozyFS 65536 5001 TRANSACTION_OFF 0 [] [])
    (store64 (store32 (store64 (λ _, 0)
       (65536 + RPage_backup) BACKUP_HALF_ACTIVE)
       (65536 + RPage_tot_pages) 1)
       (65536 + RPage_last_backup_time) 7)
    (mkHost 1048576 2) [].

(** ** Concrete runs

    The runs below use the host of the repository, a 64 KiB buffer at
    address [65536] formatted by [cozyfs_init] with backup mode off, and
    loop bound 64. *)

Definition fuel0 : nat := 64.

Definition zero_state : State Host :=
  mkState (mkCozyFS 0 0 TRANSACTION_OFF 0 (replicate 128 0) (replicate 128 0))
    (λ _, 0) (mkHost 1048576 1000) [].

Definition state_of {A} (r : Res (A * State Host)) : State Host :=
  match r with
  | Ret (_, s) => s
  | _ => zero_state
  end.

Definition base : Z := 65536.

(** [cozyfs_init(mem, 65536, 0, 0); cozyfs_attach(&fs, mem, ...)] on
    zeroed memory. *)
Definition fresh_state : State Host :=
  state_of ((cozyfs_init (H := Host) base 65536 0 0 ;; cozyfs_attach base) fuel0 zero_state).

(** The source has no code yet that creates the first directory page or
    the first user page.  The fixture gives the root directory one empty
    page at offset 4096 (no link, no neighbour, entity pool unused) and
    the user list one empty page at offset 8192. *)
Fixpoint clear_links (k : nat) (dpage : Z) (i : nat) : M Host unit :=
  match k with
  | O => ret tt
  | S k' =>
      wr32 (link_at dpage i + Link_off) INVALID_OFFSET ;;
      clear_links k' dpage (S i)
  end.

Definition make_fixture : M Host unit :=
  wr32 (base + RPage_root + Entity_refs) 1 ;;
  wr32 (base + RPage_root + Entity_flags) ENTITY_DIR ;;
  wr32 (base + RPage_root + Entity_head) 4096 ;;
  wr32 (base + RPage_root + Entity_tail) 4096 ;;
  wr32 (base + 4096 + DPage_prev) INVALID_OFFSET ;;
  wr32 (base + 4096 + DPage_next) INVALID_OFFSET ;;
  clear_links 26 (base + 4096) 0 ;;
  wr32 (base + RPage_head_upage) 8192 ;;
  wr32 (base + RPage_tail_upage) 8192 ;;
  wr32 (base + RPage_tail_upage_used) 0 ;;
  wr32 (base + 8192 + UPage_prev) INVALID_OFFSET ;;
  wr32 (base + 8192 + UPage_next) INVALID_OFFSET ;;
  wr32 (base + RPage_num_pages) 3.

Definition fixture_state : State Host :=
  state_of (make_fixture fuel0 fresh_state).

(** Paths and names, as bytes. *)
Definition path_a   : list Z := [47; 97].         (* "/a" *)
Definition path_a_b : list Z := [47; 97; 47; 98]. (* "/a/b" *)
Definition name_a   : list Z := [97].             (* "a" *)
Definition name_b   : list Z := [98].             (* "b" *)
Definition name_bob : list Z := [98; 111; 98].    (* "bob" *)

Definition root_entity : Z := base + RPage_root.

(** The first entity slot of the directory page, where [mkdir("/a")]
    puts the new directory. *)
Definition first_entity : Z := ent_at (base + 4096) 0.

(** The fixture after [mkdir("/a")]. *)
Definition dir_state : State Host :=
  state_of (mkdir_ cozyfs_callback_impl path_a fuel0 fixture_state).

(** A regular file open on handle slot 0, the slot holding generation
    [0xFFFE]: the entity made by [mkdir("/a")] is given the file flag
    (nothing in the source sets it) and the handle is filled in. *)
Definition open_file_state : State Host :=
  state_of
    ((wr32 (first_entity + Entity_flags) ENTITY_FILE ;;
      wr8 (handle_at base 0 + Handle_used) 1 ;;
      wr16 (handle_at base 0 + Handle_gen) 65534 ;;
      wr32 (handle_at base 0 + Handle_entity) (first_entity - base))
       fuel0 dir_state).

(** The descriptor of that handle: generation [0xFFFE] over index 0. *)
Definition fd_fffe : Z := to_int (Z.lor (Z.shiftl 65534 16) 0).

(** [cozyfs_init] leaves 0 in the lock word, which the lock functions
    then take for a null pointer.  The runs through the lock start from
    the fixture with the address of a free [u64] of the buffer in the
    lock word: the first eight bytes of the unused page at offset 12288. *)
Definition lock_cell : Z := base + 12288.

Definition cell_state : State Host :=
  state_of (wr64 (base + RPage_lock) lock_cell fuel0 fixture_state).

(** The fixture with the session already in a transaction. *)
Definition transaction_state : State Host :=
  mkState (set_transaction (fs fixture_state) TRANSACTION_ON)
    (memory fixture_state) (host fixture_state) (calls fixture_state).

(** The first byte of the name of the first user record. *)
Definition first_user_name : Z := base + 8192 + UPage_users + User_name.

(** ** Statements of the further facts *)

(** A component as [parse_path] returns them: not empty, without
    separator, and neither [.] nor [..]. *)
Definition proper_comp (c : list Z) : Prop :=
  c ≠ [] ∧ slash_free c ∧ c ≠ [dot] ∧ c ≠ [dot; dot].

(** The components written out as a relative path. *)
Fixpoint join_path (cs : list (list Z)) : list Z :=
  match cs with
  | [] => []
  | [c] => c
  | c :: cs' => c ++ slash :: join_path cs'
  end.

(** The two halves of a descriptor, as [unpack_fd] takes it apart. *)
Definition fd_gen (fd : Z) : Z := Z.shiftr (u32 fd) 16.
Definition fd_index (fd : Z) : Z := u32 (Z.land fd 65535).

(** The bytes of the root page [cozyfs_init] stores to when it formats:
    the lock word, the backup flag, [dpages], [free_pages], [tot_pages],
    [num_pages], and of each handle its [used] byte and its generation. *)
Definition init_written (x : Z) : Prop :=
  (RPage_lock ≤ x < RPage_backup + 8)
  ∨ (RPage_dpages ≤ x < RPage_dpages + 4)
  ∨ (RPage_free_pages ≤ x < RPage_num_pages + 4)
  ∨ ∃ j : nat, (j < 333)%nat
      ∧ (x = RPage_handles + sizeof_Handle * Z.of_nat j + Handle_used
         ∨ RPage_handles + sizeof_Handle * Z.of_nat j + Handle_gen ≤ x
           < RPage_handles + sizeof_Handle * Z.of_nat j + Handle_gen + 2).

(** The bytes at [p] spell the name [l]: its characters, then a NUL. *)
Definition name_at (m : Mem) (p : Z) (l : list Z) : Prop :=
  Forall (λ b, 0 < b < 256) l
  ∧ (∀ (i : nat) b, l !! i = Some b → m (p + Z.of_nat i) = b)
  ∧ m (p + Z.of_nat (length l)) = 0.

(** [i] is the first link slot of the page without a target. *)
Definition first_free_link (m : Mem) (dpage : Z) (i : nat) : Prop :=
  (i < Z.to_nat COUNT_links)%nat
  ∧ load32 m (link_at dpage i + Link_off) = INVALID_OFFSET
  ∧ ∀ k, (k < i)%nat → load32 m (link_at dpage k + Link_off) ≠ INVALID_OFFSET.

(** [j] is the first entity slot of the page without a reference. *)
Definition first_free_ent (m : Mem) (dpage : Z) (j : nat) : Prop :=
  (j < Z.to_nat COUNT_ents)%nat
  ∧ ¬ (0 < load32 m (ent_at dpage j + Entity_refs))
  ∧ ∀ k, (k < j)%nat → 0 < load32 m (ent_at dpage k + Entity_refs).

(** The link slots before [i] are in use, under names other than [name]
    that a search bounded by [n] reads to their end. *)
Definition others_before (m : Mem) (dpage : Z) (name : list Z) (n i : nat) : Prop :=
  ∀ k, (k < i)%nat →
    load32 m (link_at dpage k + Link_off) ≠ INVALID_OFFSET
    ∧ ∃ l, name_at m (link_at dpage k + Link_name) l
           ∧ (length l < n)%nat ∧ (length l < 128)%nat ∧ l ≠ name.




(** The fixture with the session in the timeout state. *)
Definition timeout_state : State Host :=
  mkState (set_transaction (fs fixture_state) TRANSACTION_TIMEOUT)
    (memory fixture_state) (host fixture_state) (calls fixture_state).

(** * Facts *)

(** Unfolds the monad of a run and reduces the plumbing. *)
Ltac run_M :=
  cbv beta iota zeta delta
    [bind ret trap out_of_fuel get_fuel get_fs put_fs get_mem put_mem
     rd8 rd16 rd32 rd64 rdint wr8 wr16 wr32 wr64];
  cbn [fs memory host calls negb].

(** ** Facts about the parser *)

Section ParsePath.

Implicit Types (d c data : list Z) (comps : list (list Z)).

Lemma comp_prefix_free d : slash_free (comp_prefix d).
Proof.
  induction d as [|x d IH]; simpl; [constructor|].
  destruct (Z.eqb_spec x slash); [constructor|].
  constructor; assumption.
Qed.

Lemma comp_prefix_cases d :
  d = comp_prefix d ∨ ∃ d', d = comp_prefix d ++ slash :: d'.
Proof.
  induction d as [|x d IH]; simpl; [by left|].
  destruct (Z.eqb_spec x slash) as [->|Hx].
  - right. by exists d.
  - destruct IH as [IH|[d' IH]].
    + left. congruence.
    + right. exists d'. simpl. congruence.
Qed.

Lemma comp_prefix_app c d' :
  slash_free c → comp_prefix (c ++ slash :: d') = c.
Proof.
  induction 1 as [|x c Hx _ IH]; simpl.
  - reflexivity.
  - destruct (Z.eqb_spec x slash); [done|]. by rewrite IH.
Qed.

Lemma comp_prefix_id c : slash_free c → comp_prefix c = c.
Proof.
  induction 1 as [|x c Hx _ IH]; simpl; [done|].
  destruct (Z.eqb_spec x slash); [done|]. by rewrite IH.
Qed.

Lemma byte_at_lookup data i x : data !! i = Some x → byte_at data i = x.
Proof. unfold byte_at. by intros ->. Qed.

Lemma scan_loop_prefix data n i :
  (i ≤ length data)%nat → (length data - i ≤ n)%nat →
  scan_loop n data (length data) i
  = (i + length (comp_prefix (drop i data)))%nat.
Proof.
  revert i. induction n as [|n IH]; intros i Hi Hn; simpl.
  - rewrite drop_ge by lia. simpl. lia.
  - destruct (Nat.ltb_spec i (length data)) as [Hlt|Hge]; simpl.
    + destruct (lookup_lt_is_Some_2 data i Hlt) as [x Hx].
      rewrite (byte_at_lookup _ _ _ Hx), (drop_S _ _ _ Hx). simpl.
      destruct (Z.eqb_spec x slash); simpl; [lia|].
      rewrite IH by lia. lia.
    + rewrite drop_ge by lia. simpl. lia.
Qed.

Lemma scan_component_prefix data i :
  (i ≤ length data)%nat →
  scan_component data (length data) i
  = (i + length (comp_prefix (drop i data)))%nat.
Proof. intros. unfold scan_component. apply scan_loop_prefix; lia. Qed.

(** *** Splitting *)

Lemma split_slash_nonempty d : split_slash d ≠ [].
Proof.
  destruct d as [|x d]; simpl; [done|].
  destruct (x =? slash); [done|]. by destruct (split_slash d).
Qed.

Lemma split_slash_free c : slash_free c → split_slash c = [c].
Proof.
  induction 1 as [|x c Hx _ IH]; simpl; [done|].
  destruct (Z.eqb_spec x slash); [done|]. by rewrite IH.
Qed.

Lemma split_slash_app c d' :
  slash_free c → split_slash (c ++ slash :: d') = c :: split_slash d'.
Proof.
  induction 1 as [|x c Hx _ IH]; simpl.
  - reflexivity.
  - destruct (Z.eqb_spec x slash); [done|]. by rewrite IH.
Qed.

Lemma strip_trailing_free c : slash_free c → strip_trailing c = c.
Proof.
  intros Hc. unfold strip_trailing.
  destruct (list.last c) as [x|] eqn:Hl; [|done].
  apply last_Some in Hl as [l' ->].
  apply Forall_app in Hc as [_ Hx]. inversion Hx; subst.
  by destruct (Z.eqb_spec x slash).
Qed.

Lemma strip_trailing_snoc c : strip_trailing (c ++ [slash]) = c.
Proof.
  unfold strip_trailing. rewrite last_snoc. simpl.
  rewrite length_app. simpl.
  replace (length c + 1 - 1)%nat with (length c) by lia.
  apply take_app_length.
Qed.

Lemma strip_trailing_app c d' :
  d' ≠ [] → strip_trailing (c ++ slash :: d') = c ++ slash :: strip_trailing d'.
Proof.
  intros Hd. unfold strip_trailing.
  rewrite last_app_cons.
  destruct d' as [|y d']; [done|]. rewrite last_cons_cons.
  destruct (list.last (y :: d')) as [x|] eqn:Hl; [|done].
  destruct (x =? slash); [|done].
  rewrite length_app. cbn [length].
  replace (length c + S (S (length d')) - 1)%nat
    with (length c + S (length d'))%nat by lia.
  rewrite take_app_add'; [|done].
  replace (S (length d') - 1)%nat with (length d') by lia.
  reflexivity.
Qed.

Lemma path_comps_free c : slash_free c → path_comps c = [c].
Proof.
  intros Hc. unfold path_comps.
  by rewrite strip_trailing_free, split_slash_free.
Qed.

Lemma path_comps_snoc c : slash_free c → path_comps (c ++ [slash]) = [c].
Proof.
  intros Hc. unfold path_comps.
  by rewrite strip_trailing_snoc, split_slash_free.
Qed.

Lemma path_comps_app c d' :
  slash_free c → d' ≠ [] →
  path_comps (c ++ slash :: d') = c :: path_comps d'.
Proof.
  intros Hc Hd. unfold path_comps.
  by rewrite strip_trailing_app, split_slash_app.
Qed.

End ParsePath.

Section ParseLoop.

Implicit Types (d c data : list Z) (comps : list (list Z)).

Lemma dispatch_comp_step {A} max c num comps
    (next : nat → list (list Z) → Res A) (fail : Z → Res A) :
  c ≠ [] →
  (if is_dotdot c then
     if (num =? 0)%nat then fail (- COZYFS_EINVAL) else next (num - 1)%nat comps
   else if negb (is_dot c) then
     if (num =? max)%nat then fail (- COZYFS_ENOMEM)
     else next (S num) (<[num := c]> comps)
   else next num comps)
  = match comp_step max c num comps with
    | inl e => fail e
    | inr (num', comps') => next num' comps'
    end.
Proof.
  intros Hc. unfold comp_step.
  assert ((length c =? 0)%nat = false) as ->.
  { apply Nat.eqb_neq. by destruct c. }
  destruct (is_dotdot c); [by destruct (num =? 0)%nat|].
  destruct (is_dot c); simpl; [done|].
  by destruct (num =? max)%nat.
Qed.

Lemma path_comps_empty_prefix d :
  comp_prefix d = [] → ∃ t, path_comps d = [] :: t.
Proof.
  intros Hp. destruct (comp_prefix_cases d) as [Hd|[d' Hd]]; rewrite Hp in Hd.
  - subst d. by exists [].
  - simpl in Hd. subst d. destruct d' as [|y d'].
    + exists []. apply (path_comps_snoc []). constructor.
    + exists (path_comps (y :: d')). apply (path_comps_app []); [constructor|done].
Qed.

(** The loop started at index [i] performs the array walk over the
    components of the rest of the path; the fuel given by [parse_path]
    is enough and the [ASSERT] never fires. *)
Lemma parse_loop_walk max data fuel : ∀ i num comps,
  (i ≤ length data)%nat → (length data - i < fuel)%nat →
  parse_loop fuel data (length data) max i num comps
  = Ret (walk_arr max (path_comps (drop i data)) num comps).
Proof.
  induction fuel as [|fuel IH]; intros i num comps Hi Hfuel; [lia|].
  cbn [parse_loop]. cbv zeta.
  rewrite scan_component_prefix by done.
  set (d := drop i data). set (c := comp_prefix d).
  replace (i + length c - i)%nat with (length c) by lia.
  destruct (Nat.eqb_spec (length c) 0) as [Hlen|Hlen].
  { destruct (path_comps_empty_prefix d) as [t ->]; [by apply nil_length_inv|].
    done. }
  assert (c ≠ []) as Hc by (intros Hc; apply Hlen; by rewrite Hc).
  pose proof (comp_prefix_free d) as Hfree. fold c in Hfree.
  assert (take (length c) d = c) as ->.
  { destruct (comp_prefix_cases d) as [Hd|[d' Hd]]; fold c in Hd; rewrite Hd.
    - by rewrite firstn_all.
    - apply take_app_length. }
  rewrite (dispatch_comp_step max c num comps
    (λ num comps,
       if (i + length c =? length data)%nat then Ret (Z.of_nat num, comps)
       else if negb (byte_at data (i + length c) =? slash) then Trap
       else if (S (i + length c) =? length data)%nat then Ret (Z.of_nat num, comps)
       else parse_loop fuel data (length data) max (S (i + length c)) num comps)
    (λ e, Ret (e, comps)) Hc).
  assert (drop (i + length c) data = drop (length c) d) as Hdrop.
  { unfold d. rewrite drop_drop. done. }
  destruct (comp_prefix_cases d) as [Hd|[d' Hd]]; fold c in Hd.
  - (* the component runs to the end of the path *)
    assert (i + length c = length data)%nat as Hend.
    { assert (length d = length c) as Hl by congruence.
      unfold d in Hl. rewrite length_drop in Hl. lia. }
    rewrite Hd, (path_comps_free c Hfree). cbn [walk_arr].
    destruct (comp_step max c num comps) as [e|[num' comps']]; [done|].
    by rewrite Hend, Nat.eqb_refl.
  - (* a separator follows *)
    assert (length d = length c + S (length d'))%nat as Hl.
    { rewrite Hd at 1. rewrite length_app. done. }
    assert (length data = i + length c + S (length d'))%nat as Hsize.
    { unfold d in Hl. rewrite length_drop in Hl. lia. }
    assert (drop (i + length c) data = slash :: d') as Hrest.
    { rewrite Hdrop, Hd. by rewrite drop_app_length. }
    assert (data !! (i + length c)%nat = Some slash) as Hsl.
    { rewrite <- (Nat.add_0_r (i + length c)), <- lookup_drop, Hrest. done. }
    rewrite Hd.
    destruct d' as [|y d'].
    + rewrite (path_comps_snoc c Hfree). cbn [walk_arr].
      destruct (comp_step max c num comps) as [e|[num' comps']]; [done|].
      destruct (Nat.eqb_spec (i + length c) (length data)); [done|].
      rewrite (byte_at_lookup _ _ _ Hsl), Z.eqb_refl. cbn [negb].
      destruct (Nat.eqb_spec (S (i + length c)) (length data)); [done|].
      simpl in Hsize. lia.
    + rewrite (path_comps_app c (y :: d') Hfree) by done. cbn [walk_arr].
      destruct (comp_step max c num comps) as [e|[num' comps']]; [done|].
      destruct (Nat.eqb_spec (i + length c) (length data)); [simpl in Hsize; lia|].
      rewrite (byte_at_lookup _ _ _ Hsl), Z.eqb_refl. cbn [negb].
      destruct (Nat.eqb_spec (S (i + length c)) (length data));
        [simpl in Hsize; lia|].
      rewrite IH by (simpl in Hsize; lia).
      rewrite (drop_S _ _ _ Hsl) in Hrest. by inversion Hrest.
Qed.

End ParseLoop.

Section ParsePathSpec.

Implicit Types (p d c : list Z) (comps stack : list (list Z)).

Lemma parse_path_walk p comps max :
  parse_path p comps max
  = Ret (if decide (p = [slash]) then (0, comps)
         else walk_arr max (path_comps (strip_leading p)) 0 comps).
Proof.
  unfold parse_path. destruct p as [|x r].
  - rewrite decide_False by done.
    apply (parse_loop_walk max [] 1 0 0 comps); simpl; lia.
  - assert (byte_at (x :: r) 0 = x) as -> by done.
    cbn [length]. replace (0 <? S (length r))%nat with true
      by (symmetry; apply Nat.ltb_lt; lia).
    cbn [andb]. simpl strip_leading.
    destruct (Z.eqb_spec x slash) as [->|Hx].
    + cbn [drop]. replace (S (length r) - 1)%nat with (length r) by lia.
      destruct r as [|y r].
      * by rewrite decide_True.
      * rewrite decide_False by done.
        replace (length (y :: r) =? 0)%nat with false by done.
        apply (parse_loop_walk max (y :: r) _ 0 0 comps); simpl; lia.
    + rewrite decide_False by congruence.
      apply (parse_loop_walk max (x :: r) (S (S (length r))) 0 0 comps);
        simpl; lia.
Qed.

Lemma is_dotdot_true c : is_dotdot c = true ↔ c = [dot; dot].
Proof.
  unfold is_dotdot, byte_at. split.
  - destruct c as [|a [|b [|? ?]]]; simpl; try done.
    destruct (Z.eqb_spec a dot), (Z.eqb_spec b dot); simpl; congruence.
  - by intros ->.
Qed.

Lemma is_dot_true c : is_dot c = true ↔ c = [dot].
Proof.
  unfold is_dot, byte_at. split.
  - destruct c as [|a [|? ?]]; simpl; try done.
    destruct (Z.eqb_spec a dot); simpl; congruence.
  - by intros ->.
Qed.

Lemma comp_step_spec max c num comps :
  comp_step max c num comps =
  if decide (c = []) then inl (- COZYFS_EINVAL)
  else if decide (c = [dot; dot]) then
    if (num =? 0)%nat then inl (- COZYFS_EINVAL) else inr ((num - 1)%nat, comps)
  else if decide (c = [dot]) then inr (num, comps)
  else if (num =? max)%nat then inl (- COZYFS_ENOMEM)
  else inr (S num, <[num := c]> comps).
Proof.
  unfold comp_step.
  destruct (decide (c = [])) as [->|Hc]; [done|].
  replace (length c =? 0)%nat with false
    by (symmetry; apply Nat.eqb_neq; by destruct c).
  destruct (is_dotdot c) eqn:Hdd.
  { apply is_dotdot_true in Hdd. by rewrite decide_True. }
  rewrite decide_False by (intros H; apply is_dotdot_true in H; congruence).
  destruct (is_dot c) eqn:Hdot; simpl.
  { apply is_dot_true in Hdot. by rewrite decide_True. }
  rewrite decide_False by (intros H; apply is_dot_true in H; congruence).
  done.
Qed.

(** The live part of the array is the stack of the specification. *)
Lemma walk_arr_stack max cs : ∀ num comps stack,
  length comps = max → num = length stack → take num comps = reverse stack →
  match walk_spec max cs stack with
  | inl e => ∃ comps', walk_arr max cs num comps = (- e, comps')
  | inr l => ∃ comps',
      walk_arr max cs num comps = (Z.of_nat (length l), comps')
      ∧ take (length l) comps' = l ∧ (length l ≤ max)%nat
  end.
Proof.
  induction cs as [|c cs IH]; intros num comps stack Hlen Hnum Htake.
  - simpl. exists comps. rewrite length_reverse, <- Hnum.
    split; [done|]. split; [done|].
    assert (length (take num comps) = num) as Hl
      by (rewrite Htake, length_reverse; done).
    rewrite length_take in Hl. lia.
  - cbn [walk_spec walk_arr]. rewrite comp_step_spec.
    destruct (decide (c = [])); [by exists comps|].
    destruct (decide (c = [dot; dot])).
    { destruct stack as [|top stack]; simpl in Hnum; subst num.
      - by exists comps.
      - cbn [Nat.eqb]. apply IH; [done|simpl; lia|].
        rewrite reverse_cons in Htake.
        replace (S (length stack) - 1)%nat with (length stack) by lia.
        assert (take (length stack) comps
                = take (length stack) (take (S (length stack)) comps)) as ->
          by (rewrite take_take; f_equal; lia).
        rewrite Htake. apply take_app_length'. by rewrite length_reverse. }
    destruct (decide (c = [dot])); [by apply IH|].
    destruct (decide (length stack = max)) as [Hfull|Hfull].
    { exists comps. by rewrite Hnum, Hfull, Nat.eqb_refl. }
    replace (num =? max)%nat with false
      by (symmetry; apply Nat.eqb_neq; congruence).
    assert (num < length comps)%nat as Hlt.
    { assert (length (take num comps) = num) as Hl
        by (rewrite Htake, length_reverse; done).
      rewrite length_take in Hl. lia. }
    apply IH.
    + by rewrite length_insert.
    + simpl. lia.
    + rewrite reverse_cons, <- Htake.
      rewrite (take_S_r _ _ c) by (by apply list_lookup_insert_eq).
      by rewrite take_insert_ge.
Qed.

Lemma strip_trailing_id d : list.last d ≠ Some slash → strip_trailing d = d.
Proof.
  intros Hl. unfold strip_trailing.
  destruct (list.last d) as [x|]; [|done].
  destruct (Z.eqb_spec x slash); [congruence|done].
Qed.

End ParsePathSpec.

(** C8. For every byte string, [parse_path] with the 32-entry array of its
    callers returns what the specification describes: one leading
    separator is stripped, the path is split on separators, an empty
    component gives [EINVAL], [.] is dropped, [..] pops the stack and
    gives [EINVAL] on an empty stack, a 33rd live component gives
    [ENOMEM], and otherwise the count and the ordered components are
    returned. *)
Theorem parse_path_refines_spec (p : list Z) (comps : list (list Z)) :
  length comps = 32%nat →
  match parse_path_spec p 32 with
  | inl e =>
      (e = COZYFS_EINVAL ∨ e = COZYFS_ENOMEM)
      ∧ ∃ comps', parse_path p comps 32 = Ret (- e, comps')
  | inr l =>
      ∃ r, parse_path p comps 32 = Ret r
           ∧ fst r = Z.of_nat (length l) ∧ components r = l
           ∧ (length l ≤ 32)%nat
  end.
Proof.
  intros Hlen. rewrite parse_path_walk. unfold parse_path_spec.
  destruct (decide (p = [slash])).
  { exists (0, comps). repeat split; simpl; try done. lia. }
  pose proof (walk_arr_stack 32 (path_comps (strip_leading p)) 0 comps []
                Hlen eq_refl eq_refl) as H.
  fold (path_comps (strip_leading p)).
  destruct (walk_spec 32 (path_comps (strip_leading p)) []) as [e|l] eqn:Hw.
  - destruct H as [comps' ->]. split; [|by exists comps'].
    clear -Hw. revert Hw. generalize (@nil (list Z)) as stack.
    induction (path_comps (strip_leading p)) as [|c cs IH]; intros stack; simpl.
    + done.
    + repeat case_decide; try (intros [= <-]; by auto); try apply IH.
      destruct stack; [intros [= <-]; by auto|apply IH].
  - destruct H as (comps' & -> & Ht & Hle).
    exists (Z.of_nat (length l), comps'). unfold components. simpl.
    by rewrite Nat2Z.id.
Qed.

Lemma parse_path_refines_spec_witness :
  match parse_path_spec [slash; 97; slash; dot; slash; 98] 32 with
  | inl e => False
  | inr l =>
      l = [[97]; [98]]
      ∧ ∃ r, parse_path [slash; 97; slash; dot; slash; 98] (replicate 32 []) 32 = Ret r
             ∧ fst r = 2 ∧ components r = l
  end.
Proof.
  pose proof (parse_path_refines_spec [slash; 97; slash; dot; slash; 98]
                (replicate 32 []) eq_refl) as H.
  vm_compute in H. destruct H as (r & Hr & Hn & Hc & _).
  split; [reflexivity|]. exists r. vm_compute. auto.
Defined.

(** C10. A single separator appended to a non-empty path that does not end
    in one changes nothing: the same return value and the same array. *)
Theorem parse_path_trailing_slash (p : list Z) (comps : list (list Z)) (max : nat) :
  p ≠ [] → list.last p ≠ Some slash →
  parse_path (p ++ [slash]) comps max = parse_path p comps max.
Proof.
  intros Hne Hlast. rewrite !parse_path_walk.
  rewrite (decide_False (P := p ++ [slash] = [slash])) by (by destruct p as [|? [|? ?]]).
  rewrite (decide_False (P := p = [slash])) by (intros ->; by apply Hlast).
  f_equal. f_equal.
  destruct p as [|x r]; [done|].
  change ((x :: r) ++ [slash]) with (x :: (r ++ [slash])). unfold strip_leading.
  destruct (Z.eqb_spec x slash) as [->|Hx].
  - unfold path_comps. rewrite strip_trailing_snoc, strip_trailing_id; [done|].
    destruct r as [|y r]; [by destruct Hlast|]. by rewrite last_cons_cons in Hlast.
  - change (x :: (r ++ [slash])) with ((x :: r) ++ [slash]). unfold path_comps.
    rewrite (strip_trailing_snoc (x :: r)), strip_trailing_id; done.
Qed.

Lemma parse_path_trailing_slash_witness :
  parse_path ([slash; 97; slash; 98] ++ [slash]) (replicate 32 []) 32
  = parse_path [slash; 97; slash; 98] (replicate 32 []) 32.
Proof.
  apply parse_path_trailing_slash; [discriminate|].
  vm_compute. discriminate.
Defined.

(** ** Facts about the memory *)

Lemma upd_same m a v : upd m a v a = v.
Proof. unfold upd. by rewrite Z.eqb_refl. Qed.

Lemma upd_other m a v x : x ≠ a → upd m a v x = m x.
Proof. unfold upd. intros Hx. by destruct (Z.eqb_spec x a). Qed.

Lemma storen_other n : ∀ m a v x,
  (x < a ∨ a + Z.of_nat n ≤ x) → storen n m a v x = m x.
Proof.
  induction n as [|n IH]; intros m a v x Hx; [done|].
  cbn [storen]. rewrite IH by lia. apply upd_other. lia.
Qed.

Lemma loadn_ext n : ∀ m m' a,
  (∀ x, a ≤ x < a + Z.of_nat n → m x = m' x) → loadn n m a = loadn n m' a.
Proof.
  induction n as [|n IH]; intros m m' a Hx; [done|].
  cbn [loadn]. rewrite (Hx a) by lia. f_equal. f_equal.
  apply IH. intros x ?. apply Hx. lia.
Qed.

Lemma loadn_storen n : ∀ m a v,
  loadn n (storen n m a v) a = v mod 256 ^ Z.of_nat n.
Proof.
  induction n as [|n IH]; intros m a v.
  - simpl. by rewrite Z.mod_1_r.
  - cbn [loadn storen]. rewrite IH.
    rewrite storen_other by lia. rewrite upd_same.
    rewrite Nat2Z.inj_succ, Z.pow_succ_r by lia.
    rewrite (Z.rem_mul_r v 256 (256 ^ Z.of_nat n)) by lia. done.
Qed.

Lemma load64_store64 m a v : load64 (store64 m a v) a = u64 v.
Proof. unfold load64, store64, u64. by rewrite loadn_storen. Qed.

(** A forward copy between two ranges that do not meet. *)
Lemma memcpy_loop_spec n : ∀ m dst src i x,
  (src + i + Z.of_nat n ≤ dst + i ∨ dst + i + Z.of_nat n ≤ src + i) →
  memcpy_loop n m dst src i x =
  if (dst + i <=? x) && (x <? dst + i + Z.of_nat n) then m (src + (x - dst)) else m x.
Proof.
  induction n as [|n IH]; intros m dst src i x Hd.
  - cbn [memcpy_loop]. replace (dst + i + Z.of_nat 0) with (dst + i) by lia.
    destruct (Z.leb_spec (dst + i) x), (Z.ltb_spec x (dst + i)); simpl; done || lia.
  - cbn [memcpy_loop]. rewrite IH by lia.
    destruct (Z.leb_spec (dst + (i + 1)) x), (Z.ltb_spec x (dst + (i + 1) + Z.of_nat n));
      destruct (Z.leb_spec (dst + i) x), (Z.ltb_spec x (dst + i + Z.of_nat (S n)));
      simpl; try lia;
      first [ apply upd_other; lia
            | replace x with (dst + i) by lia; rewrite upd_same; f_equal; lia ].
Qed.

Lemma my_memcpy_spec m dst src len x :
  0 ≤ len → (src + len ≤ dst ∨ dst + len ≤ src) →
  my_memcpy m dst src len x =
  if (dst <=? x) && (x <? dst + len) then m (src + (x - dst)) else m x.
Proof.
  intros Hlen Hd. unfold my_memcpy.
  rewrite memcpy_loop_spec by lia.
  rewrite Z.add_0_r, Z2Nat.id by done. done.
Qed.

Lemma scan_from_all cond k : ∀ i,
  (∀ j, (i ≤ j < i + k)%nat → cond j = true) → scan_from cond k i = (i + k)%nat.
Proof.
  induction k as [|k IH]; intros i Hc; simpl; [lia|].
  rewrite (Hc i) by lia. rewrite IH; [lia|]. intros j ?. apply Hc. lia.
Qed.

(** ** The patch layer *)

Section PatchLayer.

Context {H : Type} (callback : SysOp → Z → Z → H → Z * H).

(** C2. For a pointer into the attached buffer: with the transaction mode
    off, [writable_addr] is the identity; in a transaction with the 128
    entries of the patch table in use, it returns [NULL] and leaves the
    session, the memory and the host as they were, which a caller such as
    [free_entity] turns into [-ENOMEM]. *)
Theorem writable_addr_off_and_full (n : nat) (s : State H) (p len : Z) :
  mem (fs s) ≤ p < mem (fs s) + len →
  (transaction (fs s) = TRANSACTION_OFF →
     writable_addr callback p n s = Ret (p, s))
  ∧ (transaction (fs s) ≠ TRANSACTION_OFF →
     patch_count (fs s) = COZYFS_MAX_PATCHES →
     patches_outside (fs s) len →
     writable_addr callback p n s = Ret (NULL, s)
     ∧ free_entity callback p n s = Ret (- COZYFS_ENOMEM, s)).
Proof.
  intros Hp. split.
  - intros Hoff. unfold writable_addr, bind, get_fs, ret.
    by rewrite Hoff.
  - intros Hon Hfull Hout.
    assert (writable_addr callback p n s = Ret (NULL, s)) as Hw.
    { unfold writable_addr, bind, get_fs, ret.
      rewrite bool_decide_eq_false_2 by done. cbn [negb].
      unfold scan_while. rewrite scan_from_all.
      - rewrite Nat.ltb_irrefl, Hfull, Nat.eqb_refl. done.
      - intros j Hj. destruct (Hout j) as [Hlo|Hhi]; [lia| |].
        + apply orb_true_iff. right. apply Z.leb_le. lia.
        + apply orb_true_iff. left. apply Z.ltb_lt. lia. }
    split; [done|].
    unfold free_entity, bind. rewrite Hw. done.
Qed.

End PatchLayer.

Lemma writable_addr_off_and_full_witness :
  writable_addr cozyfs_callback_impl (65536 + 92) 0%nat full_state = Ret (NULL, full_state)
  ∧ free_entity cozyfs_callback_impl (65536 + 92) 0%nat full_state
    = Ret (- COZYFS_ENOMEM, full_state).
Proof.
  refine (proj2 (writable_addr_off_and_full cozyfs_callback_impl 0%nat full_state
                   (65536 + 92) 65536 _) _ _ _).
  - simpl. lia.
  - discriminate.
  - reflexivity.
  - intros i Hi. right.
    change (patch_count (fs full_state)) with 128%nat in Hi.
    change (patch_ptr (fs full_state) i)
      with (default 0 (((λ k, 1048576 + 4096 * Z.of_nat k) <$> seq 0 128) !! i)).
    rewrite list_lookup_fmap, lookup_seq_lt by done. simpl. lia.
Defined.

(** ** The lock *)

Section Lock.

Context {H : Type} (callback : SysOp → Z → Z → H → Z * H).

(** [unlock], seen from the eight bytes its pointer names. *)
Lemma unlock_run (n : nat) (s : State H) :
  let v := load64 (memory s) (lock_field (fs s)) in
  unlock callback n s
  = if v =? NULL then Trap
    else if load64 (memory s) v =? ticket (fs s)
         then sys_wake callback v n
                (mkState (fs s) (store64 (memory s) v 0) (host s) (calls s))
         else Ret (- COZYFS_ETIMEDOUT, s).
Proof.
  intros v. unfold unlock, lock_value, cmpxchg_release, cmpxchg, through.
  run_M. fold (lock_field (fs s)). fold v.
  destruct (v =? NULL); [done|]. run_M.
  by destruct (load64 (memory s) v =? ticket (fs s)).
Qed.

Lemma sys_wake_run (word : Z) (n : nat) (s : State H) :
  ∃ code h,
    sys_wake callback word n s
    = Ret (code, mkState (fs s) (memory s) h
                   (calls s ++ [(COZYFS_SYSOP_WAKE, word, 0)])).
Proof.
  unfold sys_wake, sys_call. run_M.
  destruct (callback COZYFS_SYSOP_WAKE word 0 (host s)) as [r h].
  destruct (to_int (u64 r) =? COZYFS_SYSRES_OK); cbn [negb]; by eexists _, _.
Qed.

(** C3, as the code has it.  [unlock] hands [root->lock], the content of
    the lock word, to the compare-exchange as the address to work on.
    For a session whose ticket is in the lock word: if the ticket is 0
    the pointer is null and the run stops; if the ticket, read as an
    address, names eight bytes of the buffer, the call returns and the
    lock word still holds the ticket, not 0; and when those eight bytes
    do not hold the ticket, the call returns [-ETIMEDOUT] and has changed
    nothing. *)
Theorem unlock_misses_lock_word (n : nat) (s : State H) :
  let field := lock_field (fs s) in
  let t := ticket (fs s) in
  load64 (memory s) field = t →
  (t = NULL → unlock callback n s = Trap)
  ∧ (t ≠ NULL →
     mem (fs s) ≤ t ∧ t + 8 ≤ mem (fs s) + PAGE * tot_pages_of s →
     t + 8 ≤ field ∨ field + 8 ≤ t →
     ∃ code s',
       unlock callback n s = Ret (code, s')
       ∧ load64 (memory s') field = t
       ∧ (load64 (memory s) t ≠ t → code = - COZYFS_ETIMEDOUT ∧ s' = s)).
Proof.
  intros field t Hheld. rewrite unlock_run. fold field. rewrite Hheld.
  fold t. split.
  - intros ->. done.
  - intros Hnz _ Hapart. destruct (Z.eqb_spec t NULL); [done|].
    destruct (Z.eqb_spec (load64 (memory s) t) t) as [Hcell|Hcell].
    + destruct (sys_wake_run t n
                  (mkState (fs s) (store64 (memory s) t 0) (host s) (calls s)))
        as (code & h & ->).
      eexists _, _. split; [reflexivity|]. cbn [fs memory]. split; [|done].
      rewrite <- Hheld at 2. apply loadn_ext. intros x Hx.
      apply storen_other. simpl in Hx. unfold field in *. simpl. lia.
    + exists (- COZYFS_ETIMEDOUT), s. done.
Qed.

End Lock.

Lemma unlock_misses_lock_word_witness :
  unlock cozyfs_callback_impl 0%nat held_state = Ret (- COZYFS_ETIMEDOUT, held_state)
  ∧ load64 (memory held_state) (lock_field (fs held_state)) = 77824.
Proof.
  assert (load64 (memory held_state) (lock_field (fs held_state))
          = ticket (fs held_state)) as Hheld by (vm_compute; reflexivity).
  assert (ticket (fs held_state) ≠ NULL) as Hnz by (vm_compute; discriminate).
  assert (mem (fs held_state) ≤ ticket (fs held_state)
          ∧ ticket (fs held_state) + 8
            ≤ mem (fs held_state) + PAGE * tot_pages_of held_state) as Hin
    by (split; vm_compute; discriminate).
  assert (ticket (fs held_state) + 8 ≤ lock_field (fs held_state)
          ∨ lock_field (fs held_state) + 8 ≤ ticket (fs held_state)) as Hapart
    by (right; vm_compute; discriminate).
  assert (load64 (memory held_state) (ticket (fs held_state))
          ≠ ticket (fs held_state)) as Hcell by (vm_compute; discriminate).
  destruct (proj2 (unlock_misses_lock_word cozyfs_callback_impl 0%nat held_state
                     Hheld) Hnz Hin Hapart)
    as (code & s' & Hrun & _ & Hlost).
  destruct (Hlost Hcell) as [-> ->].
  split; [exact Hrun|exact Hheld].
Defined.

(** ** Rollback on its own *)

Section Rollback.

Context {H : Type} (callback : SysOp → Z → Z → H → Z * H).

Lemma sys_free_frame ptr len n (s : State H) :
  ∃ code s', sys_free callback ptr len n s = Ret (code, s')
    ∧ fs s' = fs s ∧ memory s' = memory s.
Proof.
  unfold sys_free, sys_call. run_M.
  destruct (callback COZYFS_SYSOP_FREE ptr len (host s)) as [r h].
  destruct (u64 r =? 0); eexists _, _; (split; [reflexivity|]); done.
Qed.

Lemma free_patches_frame k : ∀ i n (s : State H),
  ∃ s', free_patches callback k i n s = Ret (tt, s')
    ∧ fs s' = fs s ∧ memory s' = memory s.
Proof.
  induction k as [|k IH]; intros i n s.
  - exists s. done.
  - cbn [free_patches]. unfold bind at 1, get_fs at 1. unfold bind at 1.
    destruct (sys_free_frame (patch_ptr (fs s) i) 4096 n s)
      as (code & s1 & -> & Hfs & Hmem).
    destruct (IH (S i) n s1) as (s2 & -> & Hfs2 & Hmem2).
    exists s2. split; [done|]. split; congruence.
Qed.

(** [unlock] writes at most the eight bytes at the address that the lock
    word holds. *)
Lemma unlock_frame n (s : State H) :
  let v := load64 (memory s) (lock_field (fs s)) in
  v ≠ NULL →
  ∃ code s', unlock callback n s = Ret (code, s')
    ∧ fs s' = fs s
    ∧ ∀ x, ¬ (v ≤ x < v + 8) → memory s' x = memory s x.
Proof.
  intros v Hv. rewrite unlock_run. fold v.
  destruct (Z.eqb_spec v NULL); [done|].
  destruct (load64 (memory s) v =? ticket (fs s)).
  - destruct (sys_wake_run callback v n
                (mkState (fs s) (store64 (memory s) v 0) (host s) (calls s)))
      as (code & h & ->).
    eexists _, _. split; [reflexivity|]. cbn [fs memory]. split; [done|].
    intros x Hx. apply storen_other. simpl. lia.
  - by eexists _, _.
Qed.

(** [cozyfs_transaction_rollback] frees and forgets the patches, leaves
    the transaction, and changes no byte of the memory outside the eight
    bytes at the address that the lock word holds. *)
Lemma rollback_frame n (s : State H) :
  let v := load64 (memory s) (lock_field (fs s)) in
  transaction (fs s) ≠ TRANSACTION_OFF → v ≠ NULL →
  ∃ s', cozyfs_transaction_rollback callback n s = Ret (COZYFS_OK, s')
    ∧ transaction (fs s') = TRANSACTION_OFF
    ∧ patch_count (fs s') = 0%nat
    ∧ ∀ x, ¬ (v ≤ x < v + 8) → memory s' x = memory s x.
Proof.
  intros v Hon Hv. unfold cozyfs_transaction_rollback.
  unfold bind at 1, get_fs at 1.
  rewrite bool_decide_eq_false_2 by done.
  unfold bind at 1.
  destruct (free_patches_frame (patch_count (fs s)) 0 n s) as (s1 & -> & Hfs1 & Hmem1).
  unfold bind at 1, get_fs at 1. unfold bind at 1, put_fs at 1. unfold bind at 1.
  set (s2 := mkState (set_patch_count (fs s1) 0) (memory s1) (host s1) (calls s1)).
  assert (load64 (memory s2) (lock_field (fs s2)) = v) as Hv2.
  { cbn [s2 fs memory]. unfold lock_field. cbn [set_patch_count mem].
    by rewrite Hfs1, Hmem1. }
  destruct (unlock_frame n s2) as (code & s3 & -> & Hfs3 & Hmem3);
    [by rewrite Hv2|].
  rewrite Hv2 in Hmem3.
  run_M. eexists. split; [reflexivity|]. cbn [fs memory].
  rewrite Hfs3. cbn [s2 fs set_transaction set_patch_count transaction patch_count].
  split; [done|]. split; [done|].
  intros x Hx. by rewrite Hmem3, <- Hmem1.
Qed.

End Rollback.

(** ** Searches do not write *)

Section ReadOnly.

Context {H : Type}.

Definition reads_only {A} (c : M H A) : Prop :=
  ∀ n s a s', c n s = Ret (a, s') → s' = s.

Lemma reads_only_ret {A} (a : A) : reads_only (ret a).
Proof. intros n s a' s' [= _ ->]. done. Qed.

Lemma reads_only_bind {A B} (c : M H A) (k : A → M H B) :
  reads_only c → (∀ a, reads_only (k a)) → reads_only (bind c k).
Proof.
  intros Hc Hk n s b s'. unfold bind.
  destruct (c n s) as [[a s1]| |] eqn:Hrun; [|done..].
  intros Hrun'. apply Hc in Hrun as ->. by apply Hk in Hrun'.
Qed.

Lemma bind_inv {A B} (c : M H A) (k : A → M H B) n s b s' :
  bind c k n s = Ret (b, s') →
  ∃ a s1, c n s = Ret (a, s1) ∧ k a n s1 = Ret (b, s').
Proof.
  unfold bind. destruct (c n s) as [[a s1]| |]; [|done..]. by exists a, s1.
Qed.

Lemma bind_run {A B} (c : M H A) (k : A → M H B) n s a s1 :
  c n s = Ret (a, s1) → bind c k n s = k a n s1.
Proof. unfold bind. by intros ->. Qed.

Lemma reads_only_get_fs : reads_only (get_fs (H := H)).
Proof. intros n s a s' [= _ ->]. done. Qed.

Lemma reads_only_get_mem : reads_only (get_mem (H := H)).
Proof. intros n s a s' [= _ ->]. done. Qed.

Lemma reads_only_get_fuel : reads_only (get_fuel (H := H)).
Proof. intros n s a s' [= _ ->]. done. Qed.

Lemma reads_only_rd32 p : reads_only (rd32 (H := H) p).
Proof. intros n s a s' [= _ ->]. done. Qed.

Lemma reads_only_my_strlen str : reads_only (my_strlen (H := H) str).
Proof.
  unfold my_strlen. destruct (str =? NULL); [apply reads_only_ret|].
  apply reads_only_bind; [apply reads_only_get_fuel|]. intros n.
  apply reads_only_bind; [apply reads_only_get_mem|]. intros m.
  destruct (strlen_loop n m str 0); [apply reads_only_ret|]. by intros ? ? ? ?.
Qed.

Lemma reads_only_off2ptr off : reads_only (off2ptr (H := H) off).
Proof.
  unfold off2ptr. destruct (off =? INVALID_OFFSET); [apply reads_only_ret|].
  apply reads_only_bind; [apply reads_only_get_fs|]. intros f.
  destruct (_ <? _)%nat; apply reads_only_ret.
Qed.

Lemma reads_only_links_loop k name dpage : ∀ i,
  reads_only (links_loop (H := H) k name dpage i).
Proof.
  induction k as [|k IH]; intros i; cbn [links_loop]; [apply reads_only_ret|].
  apply reads_only_bind; [apply reads_only_rd32|]. intros off.
  destruct (negb (off =? INVALID_OFFSET)); [|apply reads_only_ret].
  apply reads_only_bind; [apply reads_only_my_strlen|]. intros len.
  apply reads_only_bind; [apply reads_only_get_mem|]. intros m.
  destruct (_ && _); [|apply IH].
  apply reads_only_bind; [apply reads_only_rd32|]. intros off'.
  apply reads_only_bind; [apply reads_only_off2ptr|]. intros p.
  apply reads_only_ret.
Qed.

Lemma reads_only_pages_loop n name : ∀ dpage i,
  reads_only (pages_loop (H := H) n name dpage i).
Proof.
  induction n as [|n IH]; intros dpage i; cbn [pages_loop]; [by intros ? ? ? ?|].
  destruct (negb (dpage =? NULL)); [|apply reads_only_ret].
  apply reads_only_bind; [apply reads_only_links_loop|]. intros [p|j].
  - apply reads_only_ret.
  - apply reads_only_bind; [apply reads_only_rd32|]. intros next.
    apply reads_only_bind; [apply reads_only_off2ptr|]. intros d. apply IH.
Qed.

(** The page loop is left, other than by [return], with [dpage == NULL]. *)
Lemma pages_loop_exit n name : ∀ dpage i fuel (s s' : State H) d j,
  pages_loop n name dpage i fuel s = Ret (inr (d, j), s') → d = NULL.
Proof.
  induction n as [|n IH]; intros dpage i fuel s s' d j; cbn [pages_loop]; [done|].
  destruct (Z.eqb_spec dpage NULL) as [->|Hd]; cbn [negb].
  - by intros [= <- _ _].
  - unfold bind at 1.
    destruct (links_loop _ _ _ _ _ _) as [[[p|j'] s1]| |]; [|  |done..].
    + by intros [=].
    + unfold bind at 1, rd32 at 1, bind at 1, get_mem at 1, ret at 1.
      unfold bind at 1.
      destruct (off2ptr _ _ _) as [[d' s2]| |]; [|done..]. apply IH.
Qed.

End ReadOnly.

(** X14. [remove_entity] never writes: a run that returns leaves the
    session, the memory and the host as they were, and its value is
    [-ENOENT] when the name is not found and the address of the entity,
    as an [int], when it is. *)
Lemma remove_entity_never_removes {H} (callback : SysOp → Z → Z → H → Z * H)
    parent name flags n (s s' : State H) code :
  remove_entity callback parent name flags n s = Ret (code, s') →
  s' = s
  ∧ ((code = - COZYFS_ENOENT ∧ find_entity parent name n s = Ret (NULL, s))
     ∨ ∃ p, find_entity parent name n s = Ret (p, s) ∧ code = to_int p).
Proof.
  intros Hrun. unfold remove_entity in Hrun.
  apply bind_inv in Hrun as (head & s1 & H1 & Hrun).
  pose proof (reads_only_rd32 _ _ _ _ _ H1) as ->.
  apply bind_inv in Hrun as (dpage & s1 & H2 & Hrun).
  pose proof (reads_only_off2ptr _ _ _ _ _ H2) as ->.
  apply bind_inv in Hrun as (n0 & s1 & H3 & Hrun).
  pose proof (reads_only_get_fuel _ _ _ _ H3) as ->.
  apply bind_inv in Hrun as (r & s1 & H4 & Hrun).
  pose proof (reads_only_pages_loop _ _ _ _ _ _ _ _ H4) as ->.
  unfold find_entity.
  rewrite (bind_run _ _ _ _ _ _ H1), (bind_run _ _ _ _ _ _ H2),
    (bind_run _ _ _ _ _ _ H3), (bind_run _ _ _ _ _ _ H4).
  inversion H3; subst n0.
  destruct r as [p|[d j]].
  - injection Hrun as <- <-. split; [done|]. right. by exists p.
  - pose proof (pages_loop_exit _ _ _ _ _ _ _ _ _ H4) as ->.
    injection Hrun as <- <-. split; [done|]. by left.
Qed.

(** The generation after a close: 0 is skipped, [0xFFFF] is not. *)
Lemma next_gen_values g :
  0 ≤ g < 2 ^ 16 → next_gen g = if g =? 65535 then 1 else g + 1.
Proof.
  intros Hg. unfold next_gen, u16.
  destruct (Z.eqb_spec g 65535) as [->|Hne]; [done|].
  rewrite Z.mod_small by lia.
  destruct (Z.eqb_spec (g + 1) 0); [lia|].
  destruct (Z.eqb_spec (g + 1) (u64 (-1))) as [Heq|]; [|done].
  unfold u64 in Heq. change ((-1) mod 2 ^ 64) with (2 ^ 64 - 1) in Heq. lia.
Qed.

(** ** Restoring the backup *)

Lemma to_int_small x : 0 ≤ x < 2 ^ 31 → to_int x = x.
Proof.
  intros Hx. unfold to_int. rewrite Z.mod_small by lia.
  destruct (Z.ltb_spec x (2 ^ 31)); lia.
Qed.

Lemma u64_small x : 0 ≤ x < 2 ^ 64 → u64 x = x.
Proof. intros Hx. unfold u64. by rewrite Z.mod_small. Qed.

Section Backup.

Context {H : Type}.

(** C4, as the code has it.  With backup mode off [restore_backup]
    returns 0 and changes nothing: its caller tests [code < 0], so no
    [ECORRUPT] comes of it.  With backup mode on it gets as far as
    [OFFSETOF(RPage, backup)], which reads the member through the null
    pointer: the run stops there, and nothing is copied. *)
Theorem restore_backup_as_written (n : nat) (s : State H) :
  restore_backup n s
  = if backup_flag s =? BACKUP_NO then Ret (0, s) else Trap.
Proof.
  unfold restore_backup, atomic_load, OFFSETOF, through. run_M.
  fold (backup_flag s).
  by destruct (backup_flag s =? BACKUP_NO).
Qed.

End Backup.

(** ** Facts about the concrete runs *)

Example mkdir_a_ok :
  match mkdir_ cozyfs_callback_impl path_a fuel0 fixture_state with
  | Ret (code, s') =>
      code = COZYFS_OK
      ∧ match find_entity root_entity name_a fuel0 s' with
        | Ret (p, _) => p = first_entity
        | _ => False
        end
      ∧ load32 (memory s') (first_entity + Entity_refs) = 1
  | _ => False
  end.
Proof. vm_compute. repeat split. Qed.

(** C5, at a failing input.  In the fixture after [mkdir("/a")] the name
    [b] is missing under [/a], yet [open("/a/b")] does not return
    [-ENOENT]: the walk stops one component early, at [/a], and the call
    returns descriptor [1<<16 | 0] whose handle names the entity of [/a];
    the reference count of that entity stays 1.  Likewise, in the fixture
    itself, where the root directory is empty, [open("/a")] looks at the
    root and returns [-EISDIR]. *)
Theorem open_resolves_parent :
  match find_entity first_entity name_b fuel0 dir_state with
  | Ret (p, _) => p = NULL
  | _ => False
  end
  ∧ match open_ cozyfs_callback_impl path_a_b fuel0 dir_state with
    | Ret (fd, s') =>
        fd = 65536
        ∧ fd ≠ - COZYFS_ENOENT
        ∧ load8 (memory s') (handle_at base 0 + Handle_used) = 1
        ∧ base + load32 (memory s') (handle_at base 0 + Handle_entity) = first_entity
        ∧ load32 (memory dir_state) (first_entity + Entity_refs) = 1
        ∧ load32 (memory s') (first_entity + Entity_refs) = 1
    | _ => False
    end
  ∧ match find_entity root_entity name_a fuel0 fixture_state with
    | Ret (p, _) => p = NULL
    | _ => False
    end
  ∧ match open_ cozyfs_callback_impl path_a fuel0 fixture_state with
    | Ret (code, _) => code = - COZYFS_EISDIR ∧ code ≠ - COZYFS_ENOENT
    | _ => False
    end.
Proof. vm_compute. repeat split; discriminate. Qed.

(** C6, at a failing input.  In the fixture after [mkdir("/a")], a second
    [mkdir("/a")] returns [COZYFS_OK], not [-EINVAL], and the directory
    changes: the second link slot, free before, now also carries the
    name [a] and points to a second entity taken from the pool. *)
Theorem mkdir_existing_name :
  match find_entity root_entity name_a fuel0 dir_state with
  | Ret (p, _) => p = first_entity
  | _ => False
  end
  ∧ load32 (memory dir_state) (link_at (base + 4096) 1 + Link_off) = INVALID_OFFSET
  ∧ match mkdir_ cozyfs_callback_impl path_a fuel0 dir_state with
    | Ret (code, s') =>
        code = COZYFS_OK
        ∧ code ≠ - COZYFS_EINVAL
        ∧ base + load32 (memory s') (link_at (base + 4096) 1 + Link_off)
          = ent_at (base + 4096) 1
        ∧ memeq name_a (memory s') (link_at (base + 4096) 1 + Link_name) = true
        ∧ load8 (memory s') (link_at (base + 4096) 1 + Link_name + 1) = 0
        ∧ load32 (memory dir_state) (ent_at (base + 4096) 1 + Entity_refs) = 0
        ∧ load32 (memory s') (ent_at (base + 4096) 1 + Entity_refs) = 1
    | _ => False
    end.
Proof. vm_compute. repeat split; discriminate. Qed.

(** C7, at a failing input.  In the fixture after [mkdir("/a")],
    [rmdir("/a")] returns the address of the entity converted to [int]
    (the [return] inside the search loop), not [COZYFS_OK]; the link is
    still found afterwards and the reference count is still 1.  A name
    that is not linked gives [-ENOENT]. *)
Theorem rmdir_existing_name :
  match rmdir_ cozyfs_callback_impl path_a fuel0 dir_state with
  | Ret (code, s') =>
      code = to_int first_entity
      ∧ code ≠ COZYFS_OK
      ∧ match find_entity root_entity name_a fuel0 s' with
        | Ret (p, _) => p = first_entity
        | _ => False
        end
      ∧ load32 (memory s') (first_entity + Entity_refs) = 1
  | _ => False
  end
  ∧ match remove_entity cozyfs_callback_impl root_entity name_b ENTITY_DIR fuel0 dir_state with
    | Ret (code, _) => code = - COZYFS_ENOENT
    | _ => False
    end.
Proof. vm_compute. repeat split; discriminate. Qed.

(** C9, at a failing input.  [close] of the descriptor of a slot holding
    generation [0xFFFE] succeeds and marks the slot unused, and the slot
    then holds [0xFFFF]: the test against [(u64) -1] never holds for a
    16-bit value.  The wrap from [0xFFFF] to 0 is skipped. *)
Theorem close_reaches_all_ones :
  match unpack_fd (H := Host) fd_fffe fuel0 open_file_state with
  | Ret (h, _) => h = handle_at base 0
  | _ => False
  end
  ∧ match close_ cozyfs_callback_impl fd_fffe fuel0 open_file_state with
    | Ret (code, s') =>
        code = COZYFS_OK
        ∧ load8 (memory s') (handle_at base 0 + Handle_used) = 0
        ∧ load16 (memory s') (handle_at base 0 + Handle_gen) = 65535
    | _ => False
    end
  ∧ next_gen 65534 = 65535
  ∧ next_gen 65535 = 1.
Proof. vm_compute. repeat split. Qed.

(** C1, at a failing input.  The user record is written through the
    pointer that [off2ptr] returned, into the buffer itself, while the
    root page is patched.  On the fixture with the session in a
    transaction, [mkusr("bob")] returns 0, makes one patch and puts ['b']
    into the first byte of the name, a byte of the buffer.  Through the
    public calls: on the fixture as [cozyfs_init] left the lock word,
    [cozyfs_transaction_begin] stops at the load through the null
    pointer; with the address of a free [u64] of the buffer in the lock
    word, [cozyfs_transaction_begin], [cozyfs_mkusr("bob")] and
    [cozyfs_transaction_rollback] all return [COZYFS_OK], and the byte,
    which is neither in the lock word nor in that [u64], is 0 when begin
    returns and ['b'] after the rollback, which has freed the one patch
    and left the transaction. *)
Theorem rollback_leaves_user_record :
  base ≤ first_user_name < base + 65536
  ∧ ¬ (base + RPage_lock ≤ first_user_name < base + RPage_lock + 8)
  ∧ ¬ (lock_cell ≤ first_user_name < lock_cell + 8)
  ∧ memory transaction_state first_user_name = 0
  ∧ match mkusr cozyfs_callback_impl name_bob fuel0 transaction_state with
    | Ret (code, s') =>
        code = 0
        ∧ patch_count (fs s') = 1%nat
        ∧ memory s' first_user_name = 98
    | _ => False
    end
  ∧ cozyfs_transaction_begin cozyfs_callback_impl fuel0 fixture_state = Trap
  ∧ match cozyfs_transaction_begin cozyfs_callback_impl fuel0 cell_state with
    | Ret (code1, s1) =>
        code1 = COZYFS_OK
        ∧ transaction (fs s1) = TRANSACTION_ON
        ∧ memory s1 first_user_name = 0
        ∧ match cozyfs_mkusr cozyfs_callback_impl no_backup_copy name_bob fuel0 s1 with
          | Ret (code2, s2) =>
              code2 = COZYFS_OK
              ∧ patch_count (fs s2) = 1%nat
              ∧ match cozyfs_transaction_rollback cozyfs_callback_impl fuel0 s2 with
                | Ret (code3, s3) =>
                    code3 = COZYFS_OK
                    ∧ transaction (fs s3) = TRANSACTION_OFF
                    ∧ patch_count (fs s3) = 0%nat
                    ∧ load64 (memory s3) (base + RPage_lock) = lock_cell
                    ∧ load64 (memory s3) lock_cell = 0
                    ∧ memory s3 first_user_name = 98
                | _ => False
                end
          | _ => False
          end
    | _ => False
    end.
Proof.
  vm_compute. repeat split; try discriminate;
    intros [Hlo Hhi]; first [discriminate | by apply Hlo].
Qed.

(** * Further facts *)

(** ** The parser *)

Section ParserExtras.

Implicit Types (p d c : list Z) (cs comps stack : list (list Z)).

Lemma split_slash_all_free d : Forall slash_free (split_slash d).
Proof.
  induction d as [|x d IH]; simpl.
  - repeat constructor.
  - destruct (Z.eqb_spec x slash) as [->|Hx].
    + constructor; [constructor|done].
    + destruct (split_slash d) as [|h t]; [repeat constructor; done|].
      inversion IH; subst. constructor; [|done]. by constructor.
Qed.

Lemma walk_spec_error max cs : ∀ stack e,
  walk_spec max cs stack = inl e → e = COZYFS_EINVAL ∨ e = COZYFS_ENOMEM.
Proof.
  induction cs as [|c cs IH]; intros stack e; simpl; [done|].
  repeat case_decide; try (intros [= <-]; by auto); try apply IH.
  destruct stack; [intros [= <-]; by auto|apply IH].
Qed.

Lemma walk_spec_proper max cs : ∀ stack l,
  Forall slash_free cs → Forall proper_comp stack →
  walk_spec max cs stack = inr l → Forall proper_comp l.
Proof.
  induction cs as [|c cs IH]; intros stack l Hcs Hst; simpl.
  - intros [= <-]. by apply Forall_reverse.
  - inversion Hcs; subst. repeat case_decide; try done.
    + destruct stack as [|top stack]; [done|]. inversion Hst; subst. by apply IH.
    + by apply IH.
    + apply IH; [done|]. constructor; [|done]. by repeat split.
Qed.

Lemma walk_spec_push_all max cs : ∀ stack,
  Forall proper_comp cs → (length stack + length cs ≤ max)%nat →
  walk_spec max cs stack = inr (reverse stack ++ cs).
Proof.
  induction cs as [|c cs IH]; intros stack Hcs Hlen; simpl.
  - by rewrite app_nil_r.
  - inversion Hcs as [|? ? (Hne & _ & Hd & Hdd) Hcs']; subst.
    simpl in Hlen.
    rewrite decide_False, decide_False, decide_False, decide_False by (done || lia).
    rewrite IH by (done || simpl; lia).
    by rewrite reverse_cons, <- app_assoc.
Qed.

Lemma join_path_cons c cs :
  cs ≠ [] → join_path (c :: cs) = c ++ slash :: join_path cs.
Proof. by destruct cs. Qed.

Lemma join_path_nonempty cs :
  cs ≠ [] → Forall proper_comp cs → join_path cs ≠ [].
Proof.
  destruct cs as [|c cs]; [done|]. intros _ Hcs.
  inversion Hcs as [|? ? (Hne & _) _]; subst.
  destruct cs; simpl; [done|]. by destruct c.
Qed.

Lemma split_slash_join cs :
  cs ≠ [] → Forall proper_comp cs → split_slash (join_path cs) = cs.
Proof.
  induction cs as [|c cs IH]; [done|]. intros _ Hcs.
  inversion Hcs as [|? ? (Hne & Hfree & _) Hcs']; subst.
  destruct cs as [|c' cs].
  - simpl. by apply split_slash_free.
  - rewrite join_path_cons by done. rewrite split_slash_app by done.
    by rewrite IH.
Qed.

Lemma last_join_path cs :
  cs ≠ [] → Forall proper_comp cs → list.last (join_path cs) ≠ Some slash.
Proof.
  induction cs as [|c cs IH]; [done|]. intros _ Hcs.
  inversion Hcs as [|? ? (Hne & Hfree & _) Hcs']; subst.
  destruct cs as [|c' cs].
  - simpl. intros Hl. apply last_Some in Hl as [l' ->].
    apply Forall_app in Hfree as [_ Hx]. by inversion Hx.
  - rewrite join_path_cons by done. rewrite last_app_cons.
    pose proof (join_path_nonempty (c' :: cs)) as Hj.
    destruct (join_path (c' :: cs)) as [|y r] eqn:Hjoin; [by destruct Hj|].
    rewrite last_cons_cons. by apply IH.
Qed.

Lemma head_join_path c cs :
  proper_comp c → ∃ x r, join_path (c :: cs) = x :: r ∧ x ≠ slash.
Proof.
  intros (Hne & Hfree & _). destruct c as [|x c]; [done|].
  inversion Hfree; subst.
  destruct cs; simpl; eauto.
Qed.

Lemma path_comps_join cs :
  cs ≠ [] → Forall proper_comp cs → path_comps (join_path cs) = cs.
Proof.
  intros Hne Hcs. unfold path_comps.
  rewrite strip_trailing_id by (by apply last_join_path).
  by apply split_slash_join.
Qed.

End ParserExtras.

Lemma comp_step_length max c num comps n' comps' :
  comp_step max c num comps = inr (n', comps') → length comps' = length comps.
Proof.
  unfold comp_step. repeat case_match; intros [= <- <-]; try done.
  by rewrite length_insert.
Qed.

Lemma walk_arr_length max cs : ∀ num comps,
  length (snd (walk_arr max cs num comps)) = length comps.
Proof.
  induction cs as [|c cs IH]; intros num comps; simpl; [done|].
  destruct (comp_step max c num comps) as [e|[n' comps']] eqn:Hstep; [done|].
  rewrite IH. by eapply comp_step_length.
Qed.

Lemma parse_path_cases (p : list Z) (comps : list (list Z)) (max : nat) :
  length comps = max →
  ∃ r comps', parse_path p comps max = Ret (r, comps')
    ∧ length comps' = max
    ∧ ((r = - COZYFS_EINVAL ∨ r = - COZYFS_ENOMEM)
       ∨ (0 ≤ r ≤ Z.of_nat max ∧ Forall proper_comp (components (r, comps')))).
Proof.
  intros Hlen. rewrite parse_path_walk.
  destruct (decide (p = [slash])).
  { exists 0, comps. split; [done|]. split; [done|]. right.
    split; [lia|]. constructor. }
  pose proof (walk_arr_stack max (path_comps (strip_leading p)) 0 comps []
                Hlen eq_refl eq_refl) as Hw.
  pose proof (walk_arr_length max (path_comps (strip_leading p)) 0 comps) as Hl.
  destruct (walk_spec max (path_comps (strip_leading p)) []) as [e|l] eqn:Hspec.
  - destruct Hw as [comps' Hw]. rewrite Hw in *. exists (- e), comps'.
    split; [done|]. split; [simpl in Hl; congruence|].
    left. apply walk_spec_error in Hspec as [-> | ->]; auto.
  - destruct Hw as (comps' & Hw & Htake & Hle). rewrite Hw in *.
    exists (Z.of_nat (length l)), comps'. split; [done|].
    split; [simpl in Hl; congruence|].
    right. split; [lia|]. unfold components. simpl. rewrite Nat2Z.id, Htake.
    eapply walk_spec_proper; [|constructor|exact Hspec].
    apply split_slash_all_free.
Qed.

(** X1. Whatever the path, [parse_path] returns, keeps the size of the
    caller's array, and gives either [-EINVAL], [-ENOMEM] or a count
    between 0 and [max]; the components it then reports are never empty,
    hold no separator and are neither [.] nor [..]. *)
Theorem parse_path_result_proper (p : list Z) (comps : list (list Z)) (max : nat) :
  length comps = max →
  ∃ r comps', parse_path p comps max = Ret (r, comps')
    ∧ length comps' = max
    ∧ ((r = - COZYFS_EINVAL ∨ r = - COZYFS_ENOMEM)
       ∨ (0 ≤ r ≤ Z.of_nat max ∧ Forall proper_comp (components (r, comps')))).
Proof. apply parse_path_cases. Qed.

Lemma parse_path_result_proper_witness :
  ∃ r comps', parse_path [97; slash; slash] (replicate 4 []) 4 = Ret (r, comps')
    ∧ length comps' = 4%nat.
Proof.
  destruct (parse_path_result_proper [97; slash; slash] (replicate 4 []) 4 eq_refl)
    as (r & comps' & Hrun & Hlen & _).
  by exists r, comps'.
Defined.

(** X2. Parsing a written-out path gives its components back: for up to
    [max] components, each not empty, without separator and neither [.]
    nor [..], joined by single separators, with or without a leading or
    a trailing separator, [parse_path] returns their number and leaves
    them, in order, at the front of the array. *)
Theorem parse_path_join (cs : list (list Z)) (comps : list (list Z)) (max : nat)
    (lead trail : bool) :
  cs ≠ [] → Forall proper_comp cs → (length cs ≤ max)%nat → length comps = max →
  ∃ comps',
    parse_path ((if lead then [slash] else []) ++ join_path cs
                  ++ (if trail then [slash] else [])) comps max
    = Ret (Z.of_nat (length cs), comps')
    ∧ take (length cs) comps' = cs.
Proof.
  intros Hne Hcs Hmax Hlen.
  set (p := (if lead then [slash] else []) ++ join_path cs
              ++ (if trail then [slash] else [])).
  assert (p ≠ [slash] ∧ path_comps (strip_leading p) = cs) as [Hp Hcomps].
  { destruct cs as [|c cs]; [done|].
    inversion Hcs as [|? ? Hc _]; subst.
    destruct (head_join_path c cs Hc) as (x & r & Hj & Hx).
    assert (path_comps (join_path (c :: cs) ++ (if trail then [slash] else []))
            = c :: cs) as Hpc.
    { destruct trail.
      - unfold path_comps. rewrite strip_trailing_snoc.
        by apply split_slash_join.
      - rewrite app_nil_r. by apply path_comps_join. }
    subst p. remember (join_path (c :: cs)) as J eqn:HJ.
    remember (if trail then [slash] else []) as T eqn:HT.
    destruct lead; cbn [app].
    - split; [by rewrite Hj|]. unfold strip_leading.
      by rewrite Z.eqb_refl.
    - rewrite Hj in *. cbn [app strip_leading].
      destruct (Z.eqb_spec x slash); [done|].
      split; [|done]. by intros [= ? ?]. }
  rewrite parse_path_walk, decide_False, Hcomps by done.
  pose proof (walk_arr_stack max cs 0 comps [] Hlen eq_refl eq_refl) as Hw.
  rewrite (walk_spec_push_all max cs []) in Hw by (done || simpl; lia).
  simpl in Hw. destruct Hw as (comps' & -> & Htake & _). by exists comps'.
Qed.

Lemma parse_path_join_witness :
  ∃ comps',
    parse_path ([slash] ++ join_path [[97]; [98; 99]] ++ []) (replicate 32 []) 32
    = Ret (2, comps')
    ∧ take 2 comps' = [[97]; [98; 99]].
Proof.
  apply (parse_path_join [[97]; [98; 99]] (replicate 32 []) 32 true false).
  - discriminate.
  - repeat constructor; try discriminate.
  - simpl. lia.
  - reflexivity.
Defined.

(** ** Offsets, pointers and patches *)

Lemma loadn_storen_disj k n m a v b :
  (b + Z.of_nat k ≤ a ∨ a + Z.of_nat n ≤ b) →
  loadn k (storen n m a v) b = loadn k m b.
Proof.
  intros Hd. apply loadn_ext. intros x Hx. apply storen_other. lia.
Qed.

Lemma u32_small x : 0 ≤ x < 2 ^ 32 → u32 x = x.
Proof. intros Hx. unfold u32. by rewrite Z.mod_small. Qed.

Lemma scan_from_stop cond k i j :
  (i ≤ j < i + k)%nat → cond j = false → (scan_from cond k i ≤ j)%nat.
Proof.
  revert i. induction k as [|k IH]; intros i Hj Hc; [lia|]. simpl.
  destruct (cond i) eqn:Hi.
  - apply IH; [|done]. destruct (decide (i = j)) as [->|]; [congruence|lia].
  - lia.
Qed.

Section Pointers.

Context {H : Type} (callback : SysOp → Z → Z → H → Z * H).

Lemma off2ptr_plain (off : Z) (n : nat) (s : State H) :
  patch_count (fs s) = 0%nat → off ≠ INVALID_OFFSET →
  off2ptr off n s = Ret (mem (fs s) + off, s).
Proof.
  intros Hcount Hinv. unfold off2ptr.
  destruct (Z.eqb_spec off INVALID_OFFSET); [done|].
  run_M. by rewrite Hcount.
Qed.

Lemma ptr2off_plain (ptr : Z) (n : nat) (s : State H) :
  patch_count (fs s) = 0%nat → ptr ≠ NULL →
  ptr2off ptr n s = Ret (u32 (ptr - mem (fs s)), s).
Proof.
  intros Hcount Hnull. unfold ptr2off.
  destruct (Z.eqb_spec ptr NULL); [done|].
  run_M. by rewrite Hcount.
Qed.

Lemma writable_addr_plain (ptr : Z) (n : nat) (s : State H) :
  transaction (fs s) = TRANSACTION_OFF →
  writable_addr callback ptr n s = Ret (ptr, s).
Proof.
  intros Hoff. unfold writable_addr. run_M.
  by rewrite bool_decide_eq_true_2.
Qed.

(** X3. With no patch in the table, [off2ptr] and [ptr2off] undo each
    other: an offset below 4 GiB other than the invalid one goes to the
    address that far into the buffer and comes back unchanged, the
    invalid offset goes to the null pointer and the null pointer to the
    invalid offset; none of the calls changes the state. *)
Theorem off2ptr_ptr2off (off : Z) (n : nat) (s : State H) :
  patch_count (fs s) = 0%nat →
  0 ≤ off < 2 ^ 32 → off ≠ INVALID_OFFSET → mem (fs s) + off ≠ NULL →
  off2ptr off n s = Ret (mem (fs s) + off, s)
  ∧ ptr2off (mem (fs s) + off) n s = Ret (off, s)
  ∧ off2ptr INVALID_OFFSET n s = Ret (NULL, s)
  ∧ ptr2off NULL n s = Ret (INVALID_OFFSET, s).
Proof.
  intros Hcount Hoff Hinv Hnull.
  rewrite off2ptr_plain, ptr2off_plain by done.
  replace (mem (fs s) + off - mem (fs s)) with off by lia.
  rewrite u32_small by done.
  unfold off2ptr, ptr2off. by rewrite !Z.eqb_refl.
Qed.

(** X4. Copy on write.  In a transaction, for a pointer that no patch
    page covers and with room in the table, [writable_addr] asks the host
    for a page, copies into it the 4096 bytes around the pointer (from
    the pointer less its offset into its page of the buffer), records
    the page with that offset, and returns the same place in the copy.
    No byte outside the new page changes, and a second call on the
    returned pointer gives it back without a new patch. *)
Theorem writable_addr_copies (ptr : Z) (n : nat) (s : State H) page_copy h' :
  let f := fs s in
  let byte_off := Z.land (ptr - mem f) 4095 in
  let page_ptr := ptr - byte_off in
  transaction f ≠ TRANSACTION_OFF →
  (∀ i, (i < patch_count f)%nat → ptr < patch_ptr f i ∨ patch_ptr f i + 4096 ≤ ptr) →
  (patch_count f < COZYFS_MAX_PATCHES)%nat →
  length (patch_ptrs f) = COZYFS_MAX_PATCHES →
  callback COZYFS_SYSOP_MALLOC NULL 4096 (host s) = (page_copy, h') →
  0 < page_copy < 2 ^ 64 →
  (page_copy + 4096 ≤ page_ptr ∨ page_ptr + 4096 ≤ page_copy) →
  ∃ s',
    writable_addr callback ptr n s = Ret (page_copy + byte_off, s')
    ∧ 0 ≤ byte_off < 4096
    ∧ fs s' = add_patch f page_copy byte_off
    ∧ (∀ k, 0 ≤ k < 4096 → memory s' (page_copy + k) = memory s (page_ptr + k))
    ∧ (∀ x, ¬ (page_copy ≤ x < page_copy + 4096) → memory s' x = memory s x)
    ∧ writable_addr callback (page_copy + byte_off) n s' = Ret (page_copy + byte_off, s').
Proof.
  intros f byte_off page_ptr Hon Hmiss Hroom Hlen Hmalloc Hpc Hdisj.
  assert (0 ≤ byte_off < 4096) as Hbo.
  { subst byte_off. change 4095 with (Z.ones 12). rewrite Z.land_ones by lia.
    apply Z.mod_pos_bound. lia. }
  set (s' := mkState (add_patch f page_copy byte_off)
               (my_memcpy (memory s) page_copy page_ptr 4096) h'
               (calls s ++ [(COZYFS_SYSOP_MALLOC, NULL, 4096)])).
  exists s'.
  assert (writable_addr callback ptr n s = Ret (page_copy + byte_off, s')) as Hrun.
  { unfold writable_addr, sys_malloc, sys_call. run_M. fold f.
    rewrite bool_decide_eq_false_2 by done. cbn [negb].
    unfold scan_while. rewrite scan_from_all.
    2:{ intros j Hj. apply orb_true_iff.
        destruct (Hmiss j) as [Hlo|Hhi]; [lia|left|right].
        - by apply Z.ltb_lt.
        - by apply Z.leb_le. }
    rewrite Nat.ltb_irrefl.
    replace (patch_count f =? COZYFS_MAX_PATCHES)%nat with false
      by (symmetry; apply Nat.eqb_neq; lia).
    rewrite Hmalloc. rewrite (u64_small page_copy) by lia.
    destruct (Z.eqb_spec page_copy NULL); [unfold NULL in *; lia|].
    change (4096 - 1) with 4095. fold byte_off.
    rewrite (u32_small byte_off) by lia. done. }
  split; [done|]. split; [done|]. split; [done|].
  split; [|split].
  - intros k Hk. cbn [s' memory]. rewrite my_memcpy_spec by lia.
    destruct (Z.leb_spec page_copy (page_copy + k)),
      (Z.ltb_spec (page_copy + k) (page_copy + 4096)); simpl; try lia.
    f_equal. lia.
  - intros x Hx. cbn [s' memory]. rewrite my_memcpy_spec by lia.
    destruct (Z.leb_spec page_copy x), (Z.ltb_spec x (page_copy + 4096));
      simpl; try lia; done.
  - unfold writable_addr. run_M. cbn [s' fs].
    assert (transaction (add_patch f page_copy byte_off) = transaction f) as -> by done.
    rewrite bool_decide_eq_false_2 by done. cbn [negb].
    assert (patch_count (add_patch f page_copy byte_off) = S (patch_count f)) as -> by done.
    unfold scan_while.
    match goal with
    | |- context [scan_from ?c ?k 0%nat] =>
        assert (scan_from c k 0 ≤ patch_count f)%nat as Hscan
    end.
    { apply scan_from_stop; [lia|].
      unfold patch_ptr, add_patch. cbn [patch_ptrs].
      rewrite list_lookup_insert_eq by (fold f; unfold COZYFS_MAX_PATCHES in *; lia).
      cbn [default from_option id]. apply orb_false_iff. split.
      - apply Z.ltb_ge. lia.
      - apply Z.leb_gt. lia. }
    replace (_ <? S (patch_count f))%nat with true
      by (symmetry; apply Nat.ltb_lt; lia).
    done.
Qed.

End Pointers.

Lemma off2ptr_ptr2off_witness :
  off2ptr 4096 fuel0 fixture_state = Ret (mem (fs fixture_state) + 4096, fixture_state)
  ∧ ptr2off (mem (fs fixture_state) + 4096) fuel0 fixture_state
    = Ret (4096, fixture_state).
Proof.
  destruct (off2ptr_ptr2off 4096 fuel0 fixture_state) as (Hto & Hfrom & _).
  - reflexivity.
  - lia.
  - vm_compute. discriminate.
  - vm_compute. discriminate.
  - split; [exact Hto|exact Hfrom].
Defined.

Lemma writable_addr_copies_witness :
  ∃ s',
    writable_addr cozyfs_callback_impl (base + 4096 + 24) fuel0 transaction_state
    = Ret (1048576 + Z.land (base + 4096 + 24 - mem (fs transaction_state)) 4095, s')
    ∧ fs s' = add_patch (fs transaction_state) 1048576
                (Z.land (base + 4096 + 24 - mem (fs transaction_state)) 4095).
Proof.
  destruct (writable_addr_copies cozyfs_callback_impl (base + 4096 + 24) fuel0
              transaction_state 1048576 (mkHost (1048576 + 4096) 1000))
    as (s' & Hrun & _ & Hfs & _).
  - vm_compute. discriminate.
  - intros i Hi. vm_compute in Hi. lia.
  - vm_compute. lia.
  - vm_compute. reflexivity.
  - vm_compute. reflexivity.
  - lia.
  - right. vm_compute. discriminate.
  - exists s'. split; [exact Hrun|exact Hfs].
Defined.


(** ** Descriptors and handles *)

Lemma lor_pack g i : 0 ≤ i < 2 ^ 16 → Z.lor (g * 2 ^ 16) i = g * 2 ^ 16 + i.
Proof.
  intros Hi.
  assert (Z.land (g * 2 ^ 16) i = 0) as Hland.
  { apply Z.bits_inj'. intros k Hk. rewrite Z.land_spec, Z.bits_0.
    destruct (Z.lt_ge_cases k 16).
    - by rewrite Z.mul_pow2_bits_low by lia.
    - rewrite <- (Z.mod_small i (2 ^ 16)) by lia.
      rewrite Z.mod_pow2_bits_high by lia. apply andb_false_r. }
  by rewrite <- Z.lxor_lor, <- Z.add_nocarry_lxor.
Qed.

Lemma fd_gen_pack g i :
  0 ≤ g < 2 ^ 15 → 0 ≤ i < 2 ^ 16 → fd_gen (g * 2 ^ 16 + i) = g.
Proof.
  intros Hg Hi. unfold fd_gen. rewrite u32_small by lia.
  rewrite Z.shiftr_div_pow2 by lia.
  rewrite Z.add_comm, Z.div_add by lia. rewrite Z.div_small by lia. lia.
Qed.

Lemma fd_index_pack g i :
  0 ≤ g < 2 ^ 15 → 0 ≤ i < 2 ^ 16 → fd_index (g * 2 ^ 16 + i) = i.
Proof.
  intros Hg Hi. unfold fd_index. change 65535 with (Z.ones 16).
  rewrite Z.land_ones by lia.
  rewrite Z.add_comm, Z.mod_add by lia. rewrite Z.mod_small by lia.
  apply u32_small. lia.
Qed.

Section Handles.

Context {H : Type} (callback : SysOp → Z → Z → H → Z * H).

Lemma pack_unpack_run (i : nat) (n : nat) (s : State H) :
  let handle := handle_at (mem (fs s)) i in
  let gen := load16 (memory s) (handle + Handle_gen) in
  (i < 333)%nat → 0 ≤ gen < 2 ^ 15 →
  pack_fd handle n s = Ret (gen * 2 ^ 16 + Z.of_nat i, s)
  ∧ unpack_fd (gen * 2 ^ 16 + Z.of_nat i) n s = Ret (handle, s).
Proof.
  intros handle gen Hi Hgen. split.
  - unfold pack_fd. run_M. fold handle gen.
    assert (handle - (mem (fs s) + RPage_handles) = Z.of_nat i * sizeof_Handle) as ->
      by (unfold handle, handle_at; lia).
    rewrite Z.quot_mul by done.
    rewrite (to_int_small (Z.of_nat i)) by lia.
    rewrite (to_int_small (gen * 2 ^ 16)) by lia.
    rewrite lor_pack by lia.
    replace (0 <=? gen * 2 ^ 16 + Z.of_nat i) with true
      by (symmetry; apply Z.leb_le; lia).
    done.
  - unfold unpack_fd. run_M.
    fold (fd_gen (gen * 2 ^ 16 + Z.of_nat i)).
    fold (fd_index (gen * 2 ^ 16 + Z.of_nat i)).
    rewrite fd_gen_pack, fd_index_pack by lia.
    replace (COUNT_handles <=? Z.of_nat i) with false
      by (symmetry; apply Z.leb_gt; unfold COUNT_handles; lia).
    fold (handle_at (mem (fs s)) i). fold handle gen.
    by rewrite Z.eqb_refl.
Qed.

(** X5. A descriptor is the generation of the handle over its index: for
    a slot below 333 whose generation is below 2^15, [pack_fd] returns
    the generation times 65536 plus the index, and [unpack_fd] takes that
    descriptor back to the slot; neither changes the state. *)
Theorem pack_unpack_fd (i : nat) (n : nat) (s : State H) :
  let handle := handle_at (mem (fs s)) i in
  let gen := load16 (memory s) (handle + Handle_gen) in
  (i < 333)%nat → 0 ≤ gen < 2 ^ 15 →
  pack_fd handle n s = Ret (gen * 2 ^ 16 + Z.of_nat i, s)
  ∧ unpack_fd (gen * 2 ^ 16 + Z.of_nat i) n s = Ret (handle, s).
Proof. apply pack_unpack_run. Qed.

Lemma close_rejects_bad (fd : Z) (n : nat) (s : State H) :
  COUNT_handles ≤ fd_index fd
  ∨ load16 (memory s)
      (mem (fs s) + RPage_handles + sizeof_Handle * fd_index fd + Handle_gen)
    ≠ fd_gen fd →
  unpack_fd fd n s = Ret (NULL, s)
  ∧ close_ callback fd n s = Ret (- COZYFS_EBADF, s).
Proof.
  intros Hbad.
  assert (unpack_fd fd n s = Ret (NULL, s)) as Hun.
  { unfold unpack_fd. run_M. fold (fd_gen fd) (fd_index fd).
    destruct (Z.leb_spec COUNT_handles (fd_index fd)); [done|].
    destruct Hbad as [?|Hgen]; [lia|].
    by destruct (Z.eqb_spec
      (load16 (memory s)
         (mem (fs s) + RPage_handles + sizeof_Handle * fd_index fd + Handle_gen))
      (fd_gen fd)). }
  split; [done|].
  unfold close_. rewrite (bind_run _ _ _ _ _ _ Hun). done.
Qed.

(** X6. A descriptor whose index is 333 or more, or whose generation is
    not the one in the slot, names no handle: [unpack_fd] returns the
    null pointer and [close_] returns [-EBADF], the state unchanged. *)
Theorem close_rejects_bad_descriptor (fd : Z) (n : nat) (s : State H) :
  COUNT_handles ≤ fd_index fd
  ∨ load16 (memory s)
      (mem (fs s) + RPage_handles + sizeof_Handle * fd_index fd + Handle_gen)
    ≠ fd_gen fd →
  unpack_fd fd n s = Ret (NULL, s)
  ∧ close_ callback fd n s = Ret (- COZYFS_EBADF, s).
Proof. apply close_rejects_bad. Qed.

Lemma fd_gen_range fd : 0 ≤ fd_gen fd < 2 ^ 16.
Proof.
  unfold fd_gen, u32. rewrite Z.shiftr_div_pow2 by lia.
  pose proof (Z.mod_pos_bound fd (2 ^ 32) ltac:(lia)).
  split; [apply Z.div_pos; lia|].
  apply Z.div_lt_upper_bound; lia.
Qed.

Lemma next_gen_fresh g : 0 ≤ g < 2 ^ 16 → 0 < next_gen g < 2 ^ 16 ∧ next_gen g ≠ g.
Proof.
  intros Hg. rewrite next_gen_values by done.
  destruct (Z.eqb_spec g 65535); lia.
Qed.

Lemma unpack_fd_valid (fd : Z) (n : nat) (s : State H) :
  let handle := mem (fs s) + RPage_handles + sizeof_Handle * fd_index fd in
  fd_index fd < COUNT_handles →
  load16 (memory s) (handle + Handle_gen) = fd_gen fd →
  unpack_fd fd n s = Ret (handle, s).
Proof.
  intros handle Hidx Hgen. unfold unpack_fd. run_M.
  fold (fd_gen fd) (fd_index fd). fold handle.
  destruct (Z.leb_spec COUNT_handles (fd_index fd)); [lia|].
  by rewrite Hgen, Z.eqb_refl.
Qed.

Lemma free_entity_plain (entity : Z) (n : nat) (s : State H) :
  transaction (fs s) = TRANSACTION_OFF → entity ≠ NULL →
  free_entity callback entity n s
  = Ret (COZYFS_OK,
         mkState (fs s)
           (store32 (memory s) (entity + Entity_refs)
              (u32 (load32 (memory s) (entity + Entity_refs) - 1)))
           (host s) (calls s)).
Proof.
  intros Hoff Hnull. unfold free_entity.
  run_M. rewrite (writable_addr_plain callback entity n s Hoff). run_M.
  destruct (Z.eqb_spec entity NULL); [done|].
  run_M. by destruct (0 <? _).
Qed.

(** X7. Outside a transaction, closing a descriptor that names a handle
    of a regular file returns [COZYFS_OK], clears the [used] byte of the
    handle, moves its generation on by [next_gen] and takes one
    reference from the entity; no other byte changes, and the same
    descriptor is refused with [-EBADF] from then on. *)
Theorem close_releases_handle (fd : Z) (n : nat) (s : State H) :
  let handle := mem (fs s) + RPage_handles + sizeof_Handle * fd_index fd in
  let off := load32 (memory s) (handle + Handle_entity) in
  let entity := mem (fs s) + off in
  transaction (fs s) = TRANSACTION_OFF → patch_count (fs s) = 0%nat →
  fd_index fd < COUNT_handles →
  load16 (memory s) (handle + Handle_gen) = fd_gen fd →
  handle ≠ NULL → off ≠ INVALID_OFFSET → entity ≠ NULL →
  Z.land (load32 (memory s) (entity + Entity_flags)) ENTITY_FILE ≠ 0 →
  (entity + 4 ≤ handle ∨ handle + 4 ≤ entity) →
  ∃ s',
    close_ callback fd n s = Ret (COZYFS_OK, s')
    ∧ fs s' = fs s
    ∧ load8 (memory s') (handle + Handle_used) = 0
    ∧ load16 (memory s') (handle + Handle_gen) = next_gen (fd_gen fd)
    ∧ load32 (memory s') (entity + Entity_refs)
      = u32 (load32 (memory s) (entity + Entity_refs) - 1)
    ∧ (∀ x, ¬ (entity ≤ x < entity + 4) → x ≠ handle →
            ¬ (handle + 2 ≤ x < handle + 4) → memory s' x = memory s x)
    ∧ close_ callback fd n s' = Ret (- COZYFS_EBADF, s').
Proof.
  intros handle off entity Hoff Hcount Hidx Hgen Hh Hinv He Hfile Hdisj.
  pose proof (fd_gen_range fd) as Hrange.
  pose proof (next_gen_fresh (fd_gen fd) Hrange) as [Hnext Hfresh].
  set (m1 := store32 (memory s) (entity + Entity_refs)
               (u32 (load32 (memory s) (entity + Entity_refs) - 1))).
  set (m2 := store8 m1 (handle + Handle_used) 0).
  set (m3 := store16 m2 (handle + Handle_gen) (next_gen (fd_gen fd))).
  assert (load16 m2 (handle + Handle_gen) = fd_gen fd) as Hgen2.
  { rewrite <- Hgen. unfold m2, m1, load16, store8, store32.
    rewrite !loadn_storen_disj; [done|..];
      unfold Handle_gen, Handle_used, Entity_refs; simpl; lia. }
  exists (mkState (fs s) m3 (host s) (calls s)).
  assert (close_ callback fd n s
          = Ret (COZYFS_OK, mkState (fs s) m3 (host s) (calls s))) as Hrun.
  { unfold close_. run_M.
    rewrite (unpack_fd_valid fd n s Hidx Hgen). run_M. fold handle.
    destruct (Z.eqb_spec handle NULL); [done|]. fold off.
    rewrite (off2ptr_plain off n s Hcount Hinv). run_M. fold entity.
    destruct (Z.eqb_spec (Z.land (load32 (memory s) (entity + Entity_flags)) ENTITY_FILE) 0);
      [done|].
    rewrite (writable_addr_plain callback handle n s Hoff). run_M.
    destruct (Z.eqb_spec handle NULL); [done|].
    rewrite (free_entity_plain entity n s Hoff He). run_M.
    rewrite Z.eqb_refl. run_M. fold m1 m2. rewrite Hgen2. done. }
  split; [done|]. split; [done|]. cbn [fs memory].
  split; [|split; [|split; [|split]]].
  - unfold m3, m2, load8, store16, store8.
    rewrite loadn_storen_disj by (unfold Handle_gen, Handle_used; simpl; lia).
    by rewrite loadn_storen.
  - unfold m3, load16, store16. rewrite loadn_storen.
    apply Z.mod_small. simpl. lia.
  - unfold m3, m2, m1, load32, store16, store8, store32.
    rewrite !loadn_storen_disj
      by (unfold Handle_gen, Handle_used, Entity_refs; simpl; lia).
    rewrite loadn_storen. apply Z.mod_small.
    apply (Z.mod_pos_bound _ (2 ^ 32)). lia.
  - intros x Hx1 Hx2 Hx3. unfold m3, m2, m1, store16, store8, store32.
    rewrite !storen_other;
      [done|unfold Handle_gen, Handle_used, Entity_refs in *; simpl; lia..].
  - apply close_rejects_bad.
    right. cbn [fs memory]. fold handle.
    unfold m3, load16, store16. rewrite loadn_storen.
    rewrite Z.mod_small by (simpl; lia). done.
Qed.

End Handles.

Lemma pack_unpack_fd_witness :
  pack_fd (handle_at (mem (fs fixture_state)) 2) fuel0 fixture_state
  = Ret (load16 (memory fixture_state)
           (handle_at (mem (fs fixture_state)) 2 + Handle_gen) * 2 ^ 16
         + Z.of_nat 2, fixture_state)
  ∧ load16 (memory fixture_state)
      (handle_at (mem (fs fixture_state)) 2 + Handle_gen) = 1.
Proof.
  destruct (pack_unpack_fd 2 fuel0 fixture_state) as [Hpack _].
  - lia.
  - vm_compute. split; [discriminate|reflexivity].
  - split; [exact Hpack|vm_compute; reflexivity].
Defined.

Lemma close_rejects_bad_descriptor_witness :
  close_ cozyfs_callback_impl (7 * 65536) fuel0 fixture_state
  = Ret (- COZYFS_EBADF, fixture_state).
Proof.
  apply (close_rejects_bad_descriptor cozyfs_callback_impl (7 * 65536) fuel0
           fixture_state).
  right. vm_compute. discriminate.
Defined.

Lemma close_releases_handle_witness :
  ∃ s',
    close_ cozyfs_callback_impl fd_fffe fuel0 open_file_state = Ret (COZYFS_OK, s')
    ∧ close_ cozyfs_callback_impl fd_fffe fuel0 s' = Ret (- COZYFS_EBADF, s').
Proof.
  destruct (close_releases_handle cozyfs_callback_impl fd_fffe fuel0 open_file_state)
    as (s' & Hrun & _ & _ & _ & _ & _ & Hagain).
  - reflexivity.
  - reflexivity.
  - vm_compute. reflexivity.
  - vm_compute. reflexivity.
  - vm_compute. discriminate.
  - vm_compute. discriminate.
  - vm_compute. discriminate.
  - vm_compute. discriminate.
  - right. vm_compute. discriminate.
  - exists s'. split; [exact Hrun|exact Hagain].
Defined.


(** ** Formatting *)

Lemma init_pad_aligned mem0 : (mem0 + Z.land (u64 (- mem0)) 7) mod 8 = 0.
Proof.
  change 7 with (Z.ones 3). rewrite Z.land_ones by lia. unfold u64.
  change (2 ^ 64) with (2 ^ 3 * 2 ^ 61).
  rewrite Z.rem_mul_r by lia.
  rewrite Z.mul_comm, Z.mod_add by lia. rewrite Z.mod_mod by lia.
  rewrite Z.add_mod_idemp_r by lia.
  replace (mem0 + - mem0) with 0 by lia. done.
Qed.

Lemma init_pad_range mem0 : 0 ≤ Z.land (u64 (- mem0)) 7 < 8.
Proof.
  change 7 with (Z.ones 3). rewrite Z.land_ones by lia.
  apply Z.mod_pos_bound. lia.
Qed.

Section Init.

Context {H : Type}.

Lemma init_handles_run k : ∀ root i n (s : State H),
  ∃ s', init_handles k root i n s = Ret (tt, s')
    ∧ fs s' = fs s ∧ host s' = host s ∧ calls s' = calls s
    ∧ (∀ j, (i ≤ j < i + k)%nat →
            load16 (memory s') (handle_at root j + Handle_gen) = 1
            ∧ load8 (memory s') (handle_at root j + Handle_used) = 0)
    ∧ (∀ x, (∀ j, (i ≤ j < i + k)%nat →
                  x ≠ handle_at root j + Handle_used
                  ∧ ¬ (handle_at root j + Handle_gen ≤ x
                       < handle_at root j + Handle_gen + 2)) →
            memory s' x = memory s x).
Proof.
  induction k as [|k IH]; intros root i n s.
  - exists s. repeat split; try done; lia.
  - cbn [init_handles]. run_M.
    set (m1 := store8 (store16 (memory s)
                         (root + RPage_handles + sizeof_Handle * Z.of_nat i + Handle_gen) 1)
                 (root + RPage_handles + sizeof_Handle * Z.of_nat i + Handle_used) 0).
    destruct (IH root (S i) n (mkState (fs s) m1 (host s) (calls s)))
      as (s' & -> & Hfs & Hhost & Hcalls & Hset & Hframe).
    exists s'. split; [done|]. cbn [fs host calls memory] in *.
    split; [done|]. split; [done|]. split; [done|]. split.
    + intros j Hj. destruct (decide (j = i)) as [->|Hne].
      * unfold load16, load8. 
        rewrite (loadn_ext 2 (memory s') m1), (loadn_ext 1 (memory s') m1).
        -- unfold m1, store8, store16, handle_at. split.
           ++ rewrite loadn_storen_disj
                by (unfold Handle_gen, Handle_used; simpl; lia).
              by rewrite loadn_storen.
           ++ by rewrite loadn_storen.
        -- intros x Hx. apply Hframe. intros j' Hj'.
           unfold handle_at, sizeof_Handle, Handle_used, Handle_gen in *.
           simpl in Hx. lia.
        -- intros x Hx. apply Hframe. intros j' Hj'.
           unfold handle_at, sizeof_Handle, Handle_used, Handle_gen in *.
           simpl in Hx. lia.
      * apply Hset. lia.
    + intros x Hx. rewrite Hframe by (intros j Hj; apply Hx; lia).
      destruct (Hx i ltac:(lia)) as [Hu Hg].
      unfold m1, store8, store16, handle_at in *.
      rewrite !storen_other; [done|simpl; lia..].
Qed.

(** X8. Formatting.  For a buffer that, after the padding to a multiple
    of 8, holds at least one page (two halves of at least one page in
    backup mode, each below 2 GiB), [cozyfs_init] without [refresh]
    returns 0 and leaves: the root at an address that is a multiple of 8,
    the lock word 0, the backup flag -1 or 1, [dpages] and [free_pages]
    invalid, [tot_pages] the number of pages of a half, [num_pages] 1,
    and every one of the 333 handles unused with generation 1.  It
    stores to no other byte ([init_written]), so the root directory
    entity and the user list are left as found; in backup mode the
    second half is a copy of the first.  A session attached to the same
    pointer starts at that root, outside a transaction and without
    patches. *)
Theorem cozyfs_init_formats (mem0 len backup : Z) (n : nat) (s : State H) :
  let pad := Z.land (u64 (- mem0)) 7 in
  let root := mem0 + pad in
  let tot := (if backup =? 0 then len - pad else (len - pad) / 2) / 4096 in
  pad ≤ len → 0 < tot → tot * 4096 < 2 ^ 31 →
  ∃ s',
    cozyfs_init mem0 len backup 0 n s = Ret (0, s')
    ∧ fs s' = fs s
    ∧ root mod 8 = 0
    ∧ load64 (memory s') (root + RPage_lock) = 0
    ∧ to_int (load64 (memory s') (root + RPage_backup))
      = (if backup =? 0 then BACKUP_NO else BACKUP_HALF_ACTIVE)
    ∧ load32 (memory s') (root + RPage_dpages) = INVALID_OFFSET
    ∧ load32 (memory s') (root + RPage_free_pages) = INVALID_OFFSET
    ∧ load32 (memory s') (root + RPage_tot_pages) = tot
    ∧ load32 (memory s') (root + RPage_num_pages) = 1
    ∧ (∀ j, (j < 333)%nat →
            load16 (memory s') (handle_at root j + Handle_gen) = 1
            ∧ load8 (memory s') (handle_at root j + Handle_used) = 0)
    ∧ (∀ x, ¬ init_written (x - root) →
            (backup = 0 ∨ ¬ (root + 4096 * tot ≤ x < root + 4096 * tot + 4096 * tot)) →
            memory s' x = memory s x)
    ∧ (backup ≠ 0 → ∀ k, 0 ≤ k < 4096 * tot →
            memory s' (root + 4096 * tot + k) = memory s' (root + k))
    ∧ ∃ s'', cozyfs_attach mem0 n s' = Ret (tt, s'')
        ∧ mem (fs s'') = root ∧ ticket (fs s'') = 0
        ∧ transaction (fs s'') = TRANSACTION_OFF ∧ patch_count (fs s'') = 0%nat
        ∧ memory s'' = memory s'.
Proof.
  intros pad root tot Hpad Htot Hsmall.
  set (m0 := store32 (store32 (store32 (store32 (store64 (store64 (memory s)
               (root + RPage_lock) (u64 0))
               (root + RPage_backup)
               (u64 (if negb (backup =? 0) then BACKUP_HALF_ACTIVE else BACKUP_NO)))
               (root + RPage_dpages) INVALID_OFFSET)
               (root + RPage_free_pages) INVALID_OFFSET)
               (root + RPage_tot_pages) (u32 tot))
               (root + RPage_num_pages) 1).
  destruct (init_handles_run (Z.to_nat COUNT_handles) root 0 n
              (mkState (fs s) m0 (host s) (calls s)))
    as (s1 & Hrun1 & Hfs1 & Hhost1 & Hcalls1 & Hset1 & Hframe1).
  cbn [fs host calls memory] in *.
  set (m2 := if negb (backup =? 0)
             then my_memcpy (memory s1) (root + PAGE * tot) root (tot * 4096)
             else memory s1).
  set (s2 := if negb (backup =? 0)
             then mkState (fs s1)
                    (my_memcpy (memory s1) (root + PAGE * tot) root (tot * 4096))
                    (host s1) (calls s1)
             else s1).
  assert (fs s2 = fs s1 ∧ memory s2 = m2) as [Hfs2 Hm2].
  { unfold s2, m2. by destruct (negb (backup =? 0)). }
  exists s2.
  assert (tot_eq : (if negb (backup =? 0) then (len - pad) / 2 else len - pad) / 4096 = tot).
  { unfold tot. by destruct (backup =? 0). }
  assert (cozyfs_init mem0 len backup 0 n s = Ret (0, s2)) as Hrun.
  { unfold cozyfs_init. fold pad.
    destruct (Z.ltb_spec len pad); [lia|]. fold root.
    rewrite tot_eq. rewrite (to_int_small tot) by lia.
    destruct (Z.eqb_spec tot 0); [lia|].
    change (negb (0 =? 0)) with false. cbv iota.
    unfold atomic_store. run_M. fold m0.
    rewrite Hrun1. run_M.
    rewrite (to_int_small (tot * 4096)) by lia.
    rewrite (u64_small (tot * 4096)) by lia.
    unfold s2. by destruct (negb (backup =? 0)). }
  assert (∀ x, x < root + PAGE * tot → m2 x = memory s1 x) as Hlow.
  { intros x Hx. unfold m2. destruct (negb (backup =? 0)); [|done].
    rewrite my_memcpy_spec by (unfold PAGE in *; lia).
    destruct (Z.leb_spec (root + PAGE * tot) x); [lia|done]. }
  assert (∀ k a, a + Z.of_nat k ≤ root + PAGE →
            loadn k m2 a = loadn k (memory s1) a) as Hload2.
  { intros k a Ha. apply loadn_ext. intros x Hx. apply Hlow.
    unfold PAGE in *. lia. }
  assert (∀ k a, root ≤ a → a + Z.of_nat k ≤ root + RPage_handles →
            loadn k m2 a = loadn k m0 a) as Hload0.
  { intros k a Ha Hb. rewrite Hload2 by (unfold RPage_handles, PAGE in *; lia).
    apply loadn_ext. intros x Hx. apply Hframe1. intros j Hj.
    unfold handle_at, RPage_handles, sizeof_Handle, Handle_used, Handle_gen in *. lia. }
  split; [done|]. rewrite Hfs2, Hm2. split; [done|].
  split; [apply init_pad_aligned|].
  split; [|split; [|split; [|split; [|split; [|split; [|split; [|split; [|split]]]]]]]];
    [..|by eexists].
  - unfold load64. rewrite Hload0 by (unfold RPage_lock, RPage_handles; simpl; lia).
    unfold m0, store32, store64.
    rewrite !loadn_storen_disj
      by (unfold RPage_lock, RPage_backup, RPage_dpages, RPage_free_pages,
            RPage_tot_pages, RPage_num_pages; simpl; lia).
    by rewrite loadn_storen.
  - unfold load64. rewrite Hload0 by (unfold RPage_backup, RPage_handles; simpl; lia).
    unfold m0, store32, store64.
    rewrite !loadn_storen_disj
      by (unfold RPage_lock, RPage_backup, RPage_dpages, RPage_free_pages,
            RPage_tot_pages, RPage_num_pages; simpl; lia).
    rewrite loadn_storen. by destruct (backup =? 0).
  - unfold load32. rewrite Hload0 by (unfold RPage_dpages, RPage_handles; simpl; lia).
    unfold m0, store32, store64.
    rewrite !loadn_storen_disj
      by (unfold RPage_lock, RPage_backup, RPage_dpages, RPage_free_pages,
            RPage_tot_pages, RPage_num_pages; simpl; lia).
    by rewrite loadn_storen.
  - unfold load32. rewrite Hload0 by (unfold RPage_free_pages, RPage_handles; simpl; lia).
    unfold m0, store32, store64.
    rewrite !loadn_storen_disj
      by (unfold RPage_lock, RPage_backup, RPage_dpages, RPage_free_pages,
            RPage_tot_pages, RPage_num_pages; simpl; lia).
    by rewrite loadn_storen.
  - unfold load32. rewrite Hload0 by (unfold RPage_tot_pages, RPage_handles; simpl; lia).
    unfold m0, store32, store64.
    rewrite !loadn_storen_disj
      by (unfold RPage_lock, RPage_backup, RPage_dpages, RPage_free_pages,
            RPage_tot_pages, RPage_num_pages; simpl; lia).
    rewrite loadn_storen. unfold u32.
    change (256 ^ Z.of_nat 4) with (2 ^ 32).
    rewrite Z.mod_mod by lia. apply Z.mod_small. lia.
  - unfold load32. rewrite Hload0 by (unfold RPage_num_pages, RPage_handles; simpl; lia).
    unfold m0, store32, store64. by rewrite loadn_storen.
  - intros j Hj. unfold load16, load8.
    rewrite !Hload2
      by (unfold handle_at, RPage_handles, sizeof_Handle, Handle_used, Handle_gen, PAGE;
          simpl; lia).
    apply Hset1. unfold COUNT_handles. lia.
  - intros x Hx Hout.
    assert (m2 x = memory s1 x) as ->.
    { unfold m2. destruct (Z.eqb_spec backup 0) as [|Hb]; [done|]. cbn [negb].
      destruct Hout as [|Hout]; [done|].
      rewrite my_memcpy_spec by (unfold PAGE in *; lia).
      unfold PAGE in *.
      destruct (Z.leb_spec (root + 4096 * tot) x),
        (Z.ltb_spec x (root + 4096 * tot + tot * 4096)); simpl; try done. lia. }
    rewrite Hframe1.
    2:{ intros j Hj. unfold COUNT_handles in Hj.
        assert (¬ (x - root = RPage_handles + sizeof_Handle * Z.of_nat j + Handle_used
                   ∨ RPage_handles + sizeof_Handle * Z.of_nat j + Handle_gen ≤ x - root
                     < RPage_handles + sizeof_Handle * Z.of_nat j + Handle_gen + 2)) as Hn.
        { intros Hin. apply Hx. right. right. right. exists j. split; [lia|done]. }
        unfold handle_at. lia. }
    assert (¬ (RPage_lock ≤ x - root < RPage_backup + 8)
            ∧ ¬ (RPage_dpages ≤ x - root < RPage_dpages + 4)
            ∧ ¬ (RPage_free_pages ≤ x - root < RPage_num_pages + 4)) as (H1 & H2 & H3).
    { unfold init_written in Hx. tauto. }
    unfold m0, store32, store64.
    rewrite !storen_other; [done|..];
      unfold RPage_lock, RPage_backup, RPage_dpages, RPage_free_pages,
        RPage_tot_pages, RPage_num_pages in *; simpl; lia.
  - intros Hb k Hk. unfold m2.
    destruct (Z.eqb_spec backup 0); [done|]. cbn [negb].
    rewrite !my_memcpy_spec by (unfold PAGE in *; lia). unfold PAGE.
    destruct (Z.leb_spec (root + 4096 * tot) (root + 4096 * tot + k)),
      (Z.ltb_spec (root + 4096 * tot + k) (root + 4096 * tot + tot * 4096));
      simpl; try lia.
    destruct (Z.leb_spec (root + 4096 * tot) (root + k)); simpl; [lia|].
    f_equal. lia.
Qed.

(** X9. [cozyfs_init] returns [-ENOMEM] and changes nothing when the
    buffer is shorter than the padding or holds less than a page per
    half; with [refresh] set it returns 0, stores 0 to the lock word and
    changes no other byte. *)
Theorem cozyfs_init_refuses_or_refreshes (mem0 len backup refresh : Z) (n : nat)
    (s : State H) :
  let pad := Z.land (u64 (- mem0)) 7 in
  let root := mem0 + pad in
  let tot := (if backup =? 0 then len - pad else (len - pad) / 2) / 4096 in
  0 ≤ len →
  (len < pad ∨ tot = 0 → cozyfs_init mem0 len backup refresh n s = Ret (- COZYFS_ENOMEM, s))
  ∧ (pad ≤ len → 0 < tot < 2 ^ 31 → refresh ≠ 0 →
     ∃ s', cozyfs_init mem0 len backup refresh n s = Ret (0, s')
       ∧ fs s' = fs s
       ∧ load64 (memory s') (root + RPage_lock) = 0
       ∧ ∀ x, ¬ (root + RPage_lock ≤ x < root + RPage_lock + 8) →
              memory s' x = memory s x).
Proof.
  intros pad root tot Hlen.
  pose proof (init_pad_range mem0) as Hpad. fold pad in Hpad.
  assert (tot_eq : (if negb (backup =? 0) then (len - pad) / 2 else len - pad) / 4096 = tot).
  { unfold tot. by destruct (backup =? 0). }
  split.
  - intros Hsmall. unfold cozyfs_init. fold pad.
    destruct (Z.ltb_spec len pad); [done|].
    destruct Hsmall as [?|Hz]; [lia|].
    rewrite tot_eq, Hz. done.
  - intros Hle Htot Hre. unfold cozyfs_init. fold pad.
    destruct (Z.ltb_spec len pad); [lia|]. fold root.
    rewrite tot_eq. rewrite (to_int_small tot) by lia.
    destruct (Z.eqb_spec tot 0); [lia|].
    destruct (Z.eqb_spec refresh 0); [done|]. cbn [negb].
    unfold atomic_store. run_M. eexists. split; [done|]. cbn [fs memory].
    split; [done|]. split.
    + by rewrite load64_store64.
    + intros x Hx. apply storen_other. simpl. lia.
Qed.

End Init.

Lemma cozyfs_init_formats_witness :
  ∃ s',
    cozyfs_init (H := Host) base 65536 0 0 fuel0 zero_state = Ret (0, s')
    ∧ load32 (memory s') (base + Z.land (u64 (- base)) 7 + RPage_num_pages) = 1.
Proof.
  destruct (cozyfs_init_formats (H := Host) base 65536 0 fuel0 zero_state)
    as (s' & Hrun & _ & _ & _ & _ & _ & _ & _ & Hnum & _).
  - vm_compute. discriminate.
  - vm_compute. reflexivity.
  - vm_compute. reflexivity.
  - exists s'. split; [exact Hrun|exact Hnum].
Defined.

Lemma cozyfs_init_refuses_or_refreshes_witness :
  cozyfs_init (H := Host) base 100 0 0 fuel0 zero_state = Ret (- COZYFS_ENOMEM, zero_state).
Proof.
  apply (cozyfs_init_refuses_or_refreshes (H := Host) base 100 0 0 fuel0 zero_state).
  - lia.
  - right. reflexivity.
Defined.


(** ** Directories *)

Lemma memset_loop_spec n : ∀ m dst v i x,
  memset_loop n m dst v i x
  = if (dst + i <=? x) && (x <? dst + i + Z.of_nat n) then v else m x.
Proof.
  induction n as [|n IH]; intros m dst v i x.
  - cbn [memset_loop].
    destruct (Z.leb_spec (dst + i) x), (Z.ltb_spec x (dst + i + Z.of_nat 0));
      simpl; done || lia.
  - cbn [memset_loop]. rewrite IH.
    destruct (Z.leb_spec (dst + (i + 1)) x), (Z.ltb_spec x (dst + (i + 1) + Z.of_nat n));
      destruct (Z.leb_spec (dst + i) x), (Z.ltb_spec x (dst + i + Z.of_nat (S n)));
      simpl; try lia; try done;
      first [ apply upd_other; lia
            | replace x with (dst + i) by lia; by rewrite upd_same ].
Qed.

Lemma my_memset_spec m dst v len x :
  0 ≤ len →
  my_memset m dst v len x
  = if (dst <=? x) && (x <? dst + len) then u8 v else m x.
Proof.
  intros Hlen. unfold my_memset. rewrite memset_loop_spec.
  by rewrite Z.add_0_r, Z2Nat.id.
Qed.

Lemma store_bytes_other l : ∀ m dst x,
  (x < dst ∨ dst + Z.of_nat (length l) ≤ x) → store_bytes m dst l x = m x.
Proof.
  induction l as [|b l IH]; intros m dst x Hx; [done|].
  cbn [store_bytes length] in *. rewrite IH by lia. apply upd_other. lia.
Qed.

Lemma store_bytes_at l : ∀ m dst (i : nat) b,
  l !! i = Some b → store_bytes m dst l (dst + Z.of_nat i) = u8 b.
Proof.
  induction l as [|c l IH]; intros m dst i b Hl; [done|].
  cbn [store_bytes]. destruct i as [|i].
  - injection Hl as ->. rewrite store_bytes_other by lia.
    replace (dst + Z.of_nat 0) with dst by lia. apply upd_same.
  - replace (dst + Z.of_nat (S i)) with (dst + 1 + Z.of_nat i) by lia.
    by apply IH.
Qed.

Lemma strlen_loop_spec l : ∀ m p k n,
  (∀ (i : nat) b, l !! i = Some b → m (p + k + Z.of_nat i) = b ∧ b ≠ 0) →
  m (p + k + Z.of_nat (length l)) = 0 →
  (length l < n)%nat →
  strlen_loop n m p k = Some (k + Z.of_nat (length l)).
Proof.
  induction l as [|b l IH]; intros m p k n Hl Hz Hn.
  - destruct n as [|n]; [simpl in Hn; lia|]. cbn [strlen_loop].
    simpl in Hz. rewrite Z.add_0_r in Hz. rewrite Hz. simpl. f_equal. lia.
  - destruct n as [|n]; [simpl in Hn; lia|]. cbn [strlen_loop].
    destruct (Hl 0%nat b eq_refl) as [Hb Hnz].
    rewrite Z.add_0_r in Hb. rewrite Hb.
    destruct (Z.eqb_spec b 0); [done|].
    rewrite (IH m p (k + 1) n).
    + f_equal. cbn [length]. lia.
    + intros i c Hi. replace (p + (k + 1) + Z.of_nat i) with (p + k + Z.of_nat (S i)) by lia.
      by apply Hl.
    + cbn [length] in Hz. rewrite <- Hz. f_equal. lia.
    + cbn [length] in Hn. lia.
Qed.

Lemma name_at_strlen m p l n :
  name_at m p l → (length l < n)%nat → strlen_loop n m p 0 = Some (Z.of_nat (length l)).
Proof.
  intros (Hb & Hl & Hz) Hn. rewrite (strlen_loop_spec l); [done|..|done].
  - intros i b Hi. rewrite Z.add_0_r. split; [by apply Hl|].
    rewrite Forall_lookup in Hb. specialize (Hb i b Hi). simpl in Hb. lia.
  - by rewrite Z.add_0_r.
Qed.

Lemma memeq_refl name : ∀ m p,
  Forall (λ b, 0 < b < 256) name →
  (∀ (i : nat) b, name !! i = Some b → m (p + Z.of_nat i) = b) →
  memeq name m p = true.
Proof.
  induction name as [|b name IH]; intros m p Hb Hl; [done|].
  cbn [memeq]. inversion Hb as [|? ? Hb0 Hb']; subst.
  rewrite <- (Z.add_0_r p) at 1. change 0 with (Z.of_nat 0) at 1.
  rewrite (Hl 0%nat b eq_refl).
  unfold u8. rewrite Z.mod_small by lia. rewrite Z.eqb_refl.
  apply IH; [done|]. intros i c Hi.
  replace (p + 1 + Z.of_nat i) with (p + Z.of_nat (S i)) by lia. by apply Hl.
Qed.

Lemma memeq_eq name : ∀ l m p,
  Forall (λ b, 0 < b < 256) name →
  (∀ (i : nat) b, l !! i = Some b → m (p + Z.of_nat i) = b) →
  length name = length l →
  memeq name m p = true → name = l.
Proof.
  induction name as [|b name IH]; intros l m p Hb Hl Hlen Heq.
  - by destruct l.
  - destruct l as [|c l]; [done|]. cbn [memeq] in Heq.
    inversion Hb as [|? ? Hb0 Hb']; subst.
    pose proof (Hl 0%nat c eq_refl) as Hc. rewrite Z.add_0_r in Hc.
    rewrite Hc in Heq. unfold u8 in Heq. rewrite Z.mod_small in Heq by lia.
    destruct (Z.eqb_spec b c) as [->|]; [|done].
    f_equal. apply (IH l m (p + 1)); [done| |by injection Hlen|done].
    intros i x Hi.
    replace (p + 1 + Z.of_nat i) with (p + Z.of_nat (S i)) by lia. by apply Hl.
Qed.

Lemma scan_from_first cond k i j :
  (i ≤ j < i + k)%nat → cond j = false →
  (∀ q, (i ≤ q < j)%nat → cond q = true) →
  scan_from cond k i = j.
Proof.
  revert i. induction k as [|k IH]; intros i Hj Hc Hbefore; [lia|]. simpl.
  destruct (decide (i = j)) as [->|Hne]; [by rewrite Hc|].
  rewrite Hbefore by lia. apply IH; [lia|done|]. intros q Hq. apply Hbefore. lia.
Qed.

Section Directory.

Context {H : Type} (callback : SysOp → Z → Z → H → Z * H).

(** A used slot whose name is another one is passed over. *)
Lemma links_loop_other k name dpage i n (s : State H) l :
  load32 (memory s) (link_at dpage i + Link_off) ≠ INVALID_OFFSET →
  link_at dpage i + Link_name ≠ NULL →
  name_at (memory s) (link_at dpage i + Link_name) l →
  (length l < n)%nat → (length l < 128)%nat →
  Forall (λ b, 0 < b < 256) name → l ≠ name →
  links_loop (S k) name dpage i n s = links_loop k name dpage (S i) n s.
Proof.
  intros Hoff Hp Hname Hn Hl Hb Hne.
  cbn [links_loop]. unfold my_strlen. run_M.
  destruct (Z.eqb_spec (load32 (memory s) (link_at dpage i + Link_off)) INVALID_OFFSET);
    [done|]. cbn [negb].
  destruct (Z.eqb_spec (link_at dpage i + Link_name) NULL); [done|]. run_M.
  rewrite (name_at_strlen _ _ l n Hname Hn). run_M.
  rewrite u32_small by lia. rewrite to_int_small by lia.
  destruct (Z.eqb_spec (Z.of_nat (length name)) (Z.of_nat (length l))) as [Hlen|]; [|done].
  destruct (memeq name (memory s) (link_at dpage i + Link_name)) eqn:Heq; [|done].
  destruct Hname as (_ & Hbytes & _).
  apply (memeq_eq name l) in Heq; [congruence|done|done|lia].
Qed.

Lemma links_loop_skip c : ∀ k name dpage i n (s : State H),
  Forall (λ b, 0 < b < 256) name →
  (∀ q, (i ≤ q < i + c)%nat →
        load32 (memory s) (link_at dpage q + Link_off) ≠ INVALID_OFFSET
        ∧ link_at dpage q + Link_name ≠ NULL
        ∧ ∃ l, name_at (memory s) (link_at dpage q + Link_name) l
               ∧ (length l < n)%nat ∧ (length l < 128)%nat ∧ l ≠ name) →
  links_loop (c + k) name dpage i n s = links_loop k name dpage (i + c) n s.
Proof.
  induction c as [|c IH]; intros k name dpage i n s Hb Hq.
  - by rewrite Nat.add_0_r.
  - destruct (Hq i ltac:(lia)) as (Hoff & Hp & l & Hname & Hn & Hl & Hne).
    change (S c + k)%nat with (S (c + k)).
    rewrite (links_loop_other _ _ _ _ _ _ l) by done.
    rewrite IH; [f_equal; lia|done|]. intros q ?. apply Hq. lia.
Qed.

Lemma links_loop_free k name dpage i n (s : State H) :
  load32 (memory s) (link_at dpage i + Link_off) = INVALID_OFFSET →
  links_loop (S k) name dpage i n s = Ret (inr i, s).
Proof.
  intros Hoff. cbn [links_loop]. run_M. by rewrite Hoff.
Qed.

Lemma links_loop_match k name dpage i n (s : State H) :
  load32 (memory s) (link_at dpage i + Link_off) ≠ INVALID_OFFSET →
  link_at dpage i + Link_name ≠ NULL →
  name_at (memory s) (link_at dpage i + Link_name) name →
  (length name < n)%nat → (length name < 128)%nat →
  links_loop (S k) name dpage i n s
  = match off2ptr (load32 (memory s) (link_at dpage i + Link_off)) n s with
    | Ret (p, s') => Ret (inl p, s')
    | Trap => Trap
    | OutOfFuel => OutOfFuel
    end.
Proof.
  intros Hoff Hp Hname Hn Hl.
  cbn [links_loop]. unfold my_strlen. run_M.
  destruct (Z.eqb_spec (load32 (memory s) (link_at dpage i + Link_off)) INVALID_OFFSET);
    [done|]. cbn [negb].
  destruct (Z.eqb_spec (link_at dpage i + Link_name) NULL); [done|]. run_M.
  rewrite (name_at_strlen _ _ name n Hname Hn). run_M.
  rewrite u32_small by lia. rewrite to_int_small by lia.
  rewrite Z.eqb_refl. destruct Hname as (Hb & Hbytes & _).
  rewrite memeq_refl by done. done.
Qed.

Lemma links_loop_upto name dpage i n (s : State H) k :
  0 < dpage → Forall (λ b, 0 < b < 256) name →
  others_before (memory s) dpage name n i →
  links_loop (i + k) name dpage 0 n s = links_loop k name dpage i n s.
Proof.
  intros Hd Hb Hothers. rewrite links_loop_skip; [done..|].
  intros q Hq. destruct (Hothers q ltac:(lia)) as (Hoff & Hl).
  split; [done|]. split; [|done].
  unfold link_at, DPage_links, sizeof_Link, Link_name, NULL. lia.
Qed.

Lemma find_entity_miss parent name n (s : State H) i :
  let d := load32 (memory s) (parent + Entity_head) in
  let dpage := mem (fs s) + d in
  patch_count (fs s) = 0%nat → d ≠ INVALID_OFFSET → 0 < dpage →
  load32 (memory s) (dpage + DPage_next) = INVALID_OFFSET →
  Forall (λ b, 0 < b < 256) name →
  (i < Z.to_nat COUNT_links)%nat →
  load32 (memory s) (link_at dpage i + Link_off) = INVALID_OFFSET →
  others_before (memory s) dpage name n i →
  (2 ≤ n)%nat →
  find_entity parent name n s = Ret (NULL, s).
Proof.
  intros d dpage Hcount Hd Hpos Hnext Hb Hi Hfree Hothers Hn.
  unfold find_entity. run_M. fold d.
  rewrite (off2ptr_plain d n s Hcount Hd). run_M. fold dpage.
  destruct n as [|[|n]]; [lia..|]. cbn [pages_loop].
  destruct (Z.eqb_spec dpage NULL); [unfold NULL in *; lia|]. cbn [negb]. run_M.
  replace (Z.to_nat COUNT_links) with (i + S (Z.to_nat COUNT_links - S i))%nat by lia.
  rewrite links_loop_upto by done.
  rewrite links_loop_free by done. run_M.
  rewrite Hnext. unfold off2ptr. rewrite Z.eqb_refl. run_M.
  rewrite Z.eqb_refl. done.
Qed.

Lemma find_entity_hit parent name n (s : State H) i :
  let d := load32 (memory s) (parent + Entity_head) in
  let dpage := mem (fs s) + d in
  let off := load32 (memory s) (link_at dpage i + Link_off) in
  patch_count (fs s) = 0%nat → d ≠ INVALID_OFFSET → 0 < dpage →
  Forall (λ b, 0 < b < 256) name →
  (i < Z.to_nat COUNT_links)%nat →
  off ≠ INVALID_OFFSET →
  name_at (memory s) (link_at dpage i + Link_name) name →
  (length name < n)%nat → (length name < 128)%nat →
  others_before (memory s) dpage name n i →
  find_entity parent name n s = Ret (mem (fs s) + off, s).
Proof.
  intros d dpage off Hcount Hd Hpos Hb Hi Hoff Hname Hn Hl Hothers.
  unfold find_entity. run_M. fold d.
  rewrite (off2ptr_plain d n s Hcount Hd). run_M. fold dpage.
  destruct n as [|n]; [lia|]. cbn [pages_loop].
  destruct (Z.eqb_spec dpage NULL); [unfold NULL in *; lia|]. cbn [negb]. run_M.
  replace (Z.to_nat COUNT_links) with (i + S (Z.to_nat COUNT_links - S i))%nat by lia.
  rewrite links_loop_upto by done.
  rewrite links_loop_match; [|done| |done..].
  2:{ unfold link_at, DPage_links, sizeof_Link, Link_name, NULL. lia. }
  fold off. rewrite (off2ptr_plain off (S n) s Hcount Hoff). done.
Qed.

(** X10. A name put into a directory is found there.  Outside a
    transaction, for a directory of one page whose first free link slot
    is [i] and first free entity slot is [j], and a name of fewer than
    128 bytes that no link before [i] carries: [create_entity] without a
    target returns [COZYFS_OK]; [find_entity] returned the null pointer
    before and returns the entity in slot [j] afterwards.  The new
    entity has one reference and no page, its flags are the bytes found
    in the slot, the name stands in link [i] with its NUL, and no byte
    outside the link slot and the entity slot has changed. *)
Theorem create_then_find (parent : Z) (name : list Z) (flags : Z) (n : nat)
    (s : State H) (i j : nat) :
  let m := memory s in
  let d := load32 m (parent + Entity_head) in
  let dpage := mem (fs s) + d in
  let ent := ent_at dpage j in
  transaction (fs s) = TRANSACTION_OFF → patch_count (fs s) = 0%nat →
  load32 m (parent + Entity_tail) = d →
  0 ≤ d → d + 4096 ≤ 2 ^ 32 → 0 < dpage →
  load32 m (dpage + DPage_next) = INVALID_OFFSET →
  (parent + 16 ≤ dpage ∨ dpage + 4096 ≤ parent + 8) →
  first_free_link m dpage i → first_free_ent m dpage j →
  (∀ k, (k < i)%nat →
        ∃ l, name_at m (link_at dpage k + Link_name) l
             ∧ (length l < n)%nat ∧ (length l < 128)%nat ∧ l ≠ name) →
  Forall (λ b, 0 < b < 256) name →
  (length name < 128)%nat → (length name < n)%nat → (2 ≤ n)%nat →
  ∃ s',
    create_entity callback parent NULL name flags n s = Ret (COZYFS_OK, s')
    ∧ fs s' = fs s
    ∧ find_entity parent name n s = Ret (NULL, s)
    ∧ find_entity parent name n s' = Ret (ent, s')
    ∧ load32 (memory s') (ent + Entity_refs) = 1
    ∧ load32 (memory s') (ent + Entity_head) = INVALID_OFFSET
    ∧ load32 (memory s') (ent + Entity_tail) = INVALID_OFFSET
    ∧ load32 (memory s') (ent + Entity_flags) = load32 m (ent + Entity_flags)
    ∧ name_at (memory s') (link_at dpage i + Link_name) name
    ∧ (∀ x, ¬ (link_at dpage i ≤ x < link_at dpage i + sizeof_Link) →
            ¬ (ent ≤ x < ent + sizeof_Entity) → memory s' x = m x).
Proof.
  intros m d dpage ent Hoff Hcount Htail Hd0 Hd1 Hpos Hnext Hparent
    (Hi & Hfree & Hused) (Hj & Hjfree & Hjused) Hnames Hb Hl Hn Hn2.
  assert (INVALID_OFFSET = 4294967295) as Hinv by done.
  assert (d ≠ INVALID_OFFSET) as Hdinv by lia.
  assert (others_before m dpage name n i) as Hothers.
  { intros k Hk. split; [by apply Hused|by apply Hnames]. }
  assert (find_entity parent name n s = Ret (NULL, s)) as Hmiss.
  { by apply (find_entity_miss parent name n s i). }
  set (link := link_at dpage i).
  set (off_e := d + DPage_ents + sizeof_Entity * Z.of_nat j).
  set (m6 := store16 (store16 (store32 (store32 (store32 (store32 m
               (link + Link_off) off_e)
               (ent + Entity_refs) 1)
               (ent + Entity_head) INVALID_OFFSET)
               (ent + Entity_tail) INVALID_OFFSET)
               (ent + Entity_head_start) 0)
               (ent + Entity_tail_end) 0).
  set (m8 := store_bytes (my_memset m6 (link + Link_name) 0 MAX_NAME)
               (link + Link_name) name).
  assert (COUNT_links = 26 ∧ COUNT_ents = 26) as [Hcl Hce] by done.
  rewrite Hcl in Hi. rewrite Hce in Hj.
  assert (link = dpage + 24 + 132 * Z.of_nat i) as Hlink by done.
  assert (ent = dpage + 3456 + 24 * Z.of_nat j) as Hent by done.
  assert (u32 (ent - mem (fs s)) = off_e) as Hoffe.
  { unfold off_e, DPage_ents, sizeof_Entity. rewrite Hent. unfold dpage.
    rewrite <- (u32_small (d + (24 + 26 * 132) + 24 * Z.of_nat j)) by lia.
    f_equal. lia. }
  exists (mkState (fs s) m8 (host s) (calls s)).
  assert (create_entity callback parent NULL name flags n s
          = Ret (COZYFS_OK, mkState (fs s) m8 (host s) (calls s))) as Hrun.
  { unfold create_entity.
    destruct (Z.ltb_spec MAX_NAME (Z.of_nat (length name)));
      [unfold MAX_NAME in *; lia|].
    run_M. rewrite Hmiss. run_M. fold m. rewrite Htail.
    rewrite (off2ptr_plain d n s Hcount Hdinv). run_M. fold dpage. fold m.
    rewrite (writable_addr_plain callback _ n s Hoff). run_M.
    destruct (Z.eqb_spec dpage NULL); [unfold NULL in *; lia|].
    change (negb (NULL =? NULL)) with false. cbv iota. run_M. fold m.
    unfold scan_while.
    rewrite (scan_from_first _ _ 0 j);
      [|lia|by apply Z.ltb_ge; lia|by intros q Hq; apply Z.ltb_lt, Hjused; lia].
    rewrite (scan_from_first _ _ 0 i);
      [|lia|by rewrite Hfree|].
    2:{ intros q Hq. apply negb_true_iff, Z.eqb_neq, Hused. lia. }
    replace (j =? Z.to_nat COUNT_ents)%nat with false
      by (symmetry; apply Nat.eqb_neq; lia).
    run_M. fold ent link.
    rewrite (ptr2off_plain ent n _ Hcount) by (unfold NULL; lia).
    run_M. rewrite Hoffe. fold m6 m8. done. }
  assert (∀ x, ¬ (link ≤ x < link + sizeof_Link) → ¬ (ent ≤ x < ent + sizeof_Entity) →
            m8 x = m x) as Hframe.
  { intros x Hx1 Hx2. unfold m8, sizeof_Link, sizeof_Entity, Link_name, MAX_NAME in *.
    rewrite store_bytes_other by lia.
    rewrite my_memset_spec by lia.
    destruct (Z.leb_spec (link + 4) x), (Z.ltb_spec x (link + 4 + 128)); simpl; try lia;
      unfold m6, store16, store32, Link_off, Entity_refs, Entity_head, Entity_tail,
        Entity_head_start, Entity_tail_end;
      rewrite !storen_other; simpl; done || lia. }
  assert (∀ k a, (a + Z.of_nat k ≤ link ∨ link + sizeof_Link ≤ a) →
            (a + Z.of_nat k ≤ ent ∨ ent + sizeof_Entity ≤ a) →
            loadn k m8 a = loadn k m a) as Hload.
  { intros k a H1 H2. apply loadn_ext. intros x Hx. apply Hframe; lia. }
  assert (∀ k a, ent ≤ a → a + Z.of_nat k ≤ ent + sizeof_Entity →
            loadn k m8 a = loadn k m6 a) as Hload6.
  { intros k a H1 H2. apply loadn_ext. intros x Hx.
    unfold m8, sizeof_Link, sizeof_Entity, Link_name, MAX_NAME in *.
    rewrite store_bytes_other by lia. rewrite my_memset_spec by lia.
    destruct (Z.leb_spec (link + 4) x), (Z.ltb_spec x (link + 4 + 128)); simpl; try lia;
      done. }
  assert (name_at m8 (link + Link_name) name) as Hname8.
  { split; [done|]. split.
    - intros q b Hq. unfold m8. rewrite (store_bytes_at _ _ _ _ b Hq).
      rewrite Forall_lookup in Hb. specialize (Hb q b Hq). simpl in Hb.
      unfold u8. apply Z.mod_small. lia.
    - unfold m8, MAX_NAME. rewrite store_bytes_other by lia.
      rewrite my_memset_spec by lia.
      destruct (Z.leb_spec (link + Link_name) (link + Link_name + Z.of_nat (length name))),
        (Z.ltb_spec (link + Link_name + Z.of_nat (length name)) (link + Link_name + 128));
        simpl; try lia; done. }
  assert (load32 m8 (link + Link_off) = off_e) as Hoff8.
  { unfold load32. rewrite (loadn_ext 4 m8 (store32 m (link + Link_off) off_e)).
    - unfold store32. rewrite loadn_storen. apply Z.mod_small.
      unfold off_e, DPage_ents, sizeof_Entity. simpl. lia.
    - intros x Hx. unfold m8, Link_off, Link_name, MAX_NAME in *. simpl in Hx.
      rewrite store_bytes_other by lia. rewrite my_memset_spec by lia.
      destruct (Z.leb_spec (link + 4) x); simpl; [lia|].
      unfold m6, store16, store32, Link_off, Entity_refs, Entity_head, Entity_tail,
        Entity_head_start, Entity_tail_end.
      rewrite !(storen_other _ _ (ent + _)); simpl; done || lia. }
  split; [done|]. cbn [fs memory]. split; [done|]. split; [done|].
  split; [|split; [|split; [|split; [|split; [|split]]]]].
  - assert (ent = mem (fs s) + off_e) as ->
      by (unfold off_e, DPage_ents, sizeof_Entity; rewrite Hent; unfold dpage; lia).
    rewrite <- Hoff8.
    assert (load32 m8 (parent + Entity_head) = d) as Hd8.
    { unfold load32, d. apply Hload; unfold Entity_head, sizeof_Link, sizeof_Entity; simpl; lia. }
    pose proof (find_entity_hit parent name n (mkState (fs s) m8 (host s) (calls s)) i)
      as Hhit.
    cbn [fs memory] in Hhit. rewrite Hd8 in Hhit. fold dpage link in Hhit.
    apply Hhit; try done.
    + unfold COUNT_links. lia.
    + intros k Hk. destruct (Hothers k Hk) as (Hu & l & (Hlb & Hlbytes & Hlz) & ? & ? & ?).
      assert (∀ x, link_at dpage k ≤ x < link_at dpage k + 132 → m8 x = m x) as Hsame.
      { intros x Hx. apply Hframe; unfold link_at, DPage_links, sizeof_Link, sizeof_Entity in *;
          lia. }
      split.
      * unfold load32. rewrite (loadn_ext 4 m8 m); [done|].
        intros x Hx. apply Hsame. unfold Link_off in *. simpl in Hx. lia.
      * exists l. split; [|done]. split; [done|]. split.
        -- intros q b Hq. rewrite Hsame; [by apply Hlbytes|].
           apply lookup_lt_Some in Hq. unfold Link_name. lia.
        -- rewrite Hsame; [done|]. unfold Link_name. lia.
  - unfold load32. rewrite Hload6 by (unfold Entity_refs, sizeof_Entity; simpl; lia).
    unfold m6, store16, store32.
    rewrite !loadn_storen_disj
      by (unfold Entity_refs, Entity_head, Entity_tail, Entity_head_start, Entity_tail_end;
          simpl; lia).
    by rewrite loadn_storen.
  - unfold load32. rewrite Hload6 by (unfold Entity_head, sizeof_Entity; simpl; lia).
    unfold m6, store16, store32.
    rewrite !loadn_storen_disj
      by (unfold Entity_refs, Entity_head, Entity_tail, Entity_head_start, Entity_tail_end;
          simpl; lia).
    by rewrite loadn_storen.
  - unfold load32. rewrite Hload6 by (unfold Entity_tail, sizeof_Entity; simpl; lia).
    unfold m6, store16, store32.
    rewrite !loadn_storen_disj
      by (unfold Entity_refs, Entity_head, Entity_tail, Entity_head_start, Entity_tail_end;
          simpl; lia).
    by rewrite loadn_storen.
  - unfold load32. rewrite Hload6 by (unfold Entity_flags, sizeof_Entity; simpl; lia).
    unfold m6, store16, store32.
    rewrite !loadn_storen_disj; [done|..];
      unfold Link_off, Entity_flags, Entity_refs, Entity_head, Entity_tail,
        Entity_head_start, Entity_tail_end; simpl; lia.
  - done.
  - done.
Qed.

End Directory.

Lemma create_then_find_witness :
  ∃ s',
    create_entity cozyfs_callback_impl root_entity NULL name_a 0 fuel0 fixture_state
    = Ret (COZYFS_OK, s')
    ∧ find_entity root_entity name_a fuel0 fixture_state = Ret (NULL, fixture_state)
    ∧ find_entity root_entity name_a fuel0 s'
      = Ret (ent_at (mem (fs fixture_state)
                     + load32 (memory fixture_state) (root_entity + Entity_head)) 0, s').
Proof.
  destruct (create_then_find cozyfs_callback_impl root_entity name_a 0 fuel0
              fixture_state 0 0)
    as (s' & Hrun & _ & Hmiss & Hhit & _).
  - reflexivity.
  - reflexivity.
  - vm_compute. reflexivity.
  - vm_compute. discriminate.
  - vm_compute. discriminate.
  - vm_compute. reflexivity.
  - vm_compute. reflexivity.
  - left. vm_compute. discriminate.
  - split; [vm_compute; lia|]. split; [vm_compute; reflexivity|]. intros k Hk. lia.
  - split; [vm_compute; lia|]. split; [vm_compute; discriminate|]. intros k Hk. lia.
  - intros k Hk. lia.
  - repeat constructor.
  - vm_compute. lia.
  - vm_compute. lia.
  - vm_compute. lia.
  - exists s'. split; [exact Hrun|]. split; [exact Hmiss|exact Hhit].
Defined.


(** ** Transaction states *)

Section TransactionStates.

Context {H : Type} (callback : SysOp → Z → Z → H → Z * H).
Context (backup_copy : Z → Mem → Mem).

(** X11. The transaction calls in the wrong state.  Outside a transaction
    [cozyfs_transaction_commit] and [cozyfs_transaction_rollback] return
    [-EINVAL]; inside one (or after a timeout) [cozyfs_transaction_begin]
    returns [-EINVAL]; all three leave the state as it was.  After a
    timeout [cozyfs_transaction_commit] returns [-ETIMEDOUT]: it forgets
    the patches, copies none of them and changes no byte of the memory,
    and the session stays in the timeout state. *)
Theorem transaction_calls_in_wrong_state (n : nat) (s : State H) :
  (transaction (fs s) = TRANSACTION_OFF →
     cozyfs_transaction_commit callback backup_copy n s = Ret (- COZYFS_EINVAL, s)
     ∧ cozyfs_transaction_rollback callback n s = Ret (- COZYFS_EINVAL, s))
  ∧ (transaction (fs s) ≠ TRANSACTION_OFF →
     cozyfs_transaction_begin callback n s = Ret (- COZYFS_EINVAL, s))
  ∧ (transaction (fs s) = TRANSACTION_TIMEOUT →
     ∃ s', cozyfs_transaction_commit callback backup_copy n s
           = Ret (- COZYFS_ETIMEDOUT, s')
       ∧ fs s' = set_patch_count (fs s) 0
       ∧ memory s' = memory s).
Proof.
  split; [|split].
  - intros Hoff. unfold cozyfs_transaction_commit, cozyfs_transaction_rollback.
    run_M. by rewrite Hoff.
  - intros Hon. unfold cozyfs_transaction_begin. run_M.
    by rewrite bool_decide_eq_false_2.
  - intros Hto. unfold cozyfs_transaction_commit. run_M. rewrite Hto.
    destruct (free_patches_frame callback (patch_count (fs s)) 0 n s)
      as (s1 & Hrun & Hfs & Hmem).
    rewrite Hrun. run_M. eexists. split; [reflexivity|]. cbn [fs memory].
    by rewrite Hfs, Hmem.
Qed.

End TransactionStates.

(** ** Commit and the timeout state *)

Section CommitExtras.

Context {H : Type} (callback : SysOp → Z → Z → H → Z * H).
Context (backup_copy : Z → Mem → Mem).








(** X13. The timeout state is terminal for the calls that go through the
    critical section: [enter_critical_section] returns [-ETIMEDOUT], the
    body of the call is not run, [leave_critical_section] does nothing,
    and the state is as it was. *)
Theorem timeout_refuses_every_call (body : M H Z) (n : nat) (s : State H) :
  transaction (fs s) = TRANSACTION_TIMEOUT →
  enter_critical_section callback (-1) n s = Ret (- COZYFS_ETIMEDOUT, s)
  ∧ critical callback backup_copy body n s = Ret (- COZYFS_ETIMEDOUT, s)
  ∧ leave_critical_section callback backup_copy n s = Ret (tt, s).
Proof.
  intros Hto.
  unfold critical, enter_critical_section, leave_critical_section. run_M.
  rewrite Hto. done.
Qed.

End CommitExtras.


Lemma timeout_refuses_every_call_witness :
  cozyfs_mkdir cozyfs_callback_impl no_backup_copy path_a fuel0 timeout_state
  = Ret (- COZYFS_ETIMEDOUT, timeout_state).
Proof.
  apply (timeout_refuses_every_call cozyfs_callback_impl no_backup_copy
           (mkdir_ cozyfs_callback_impl path_a) fuel0 timeout_state).
  reflexivity.
Defined.


Lemma remove_entity_never_removes_witness :
  state_of (remove_entity cozyfs_callback_impl root_entity name_a 0 fuel0 dir_state)
  = dir_state.
Proof.
  destruct (remove_entity cozyfs_callback_impl root_entity name_a 0 fuel0 dir_state)
    as [[code s']| |] eqn:Hrun.
  - by apply remove_entity_never_removes in Hrun as [-> _].
  - vm_compute in Hrun. discriminate.
  - vm_compute in Hrun. discriminate.
Defined.

(** ** Opening *)

Section OpenExtras.

Context {H : Type} (callback : SysOp → Z → Z → H → Z * H).

(** X15. Outside a transaction, once the walk of [open_] has reached an
    entity that is not a directory: if all 333 handles are in use the
    call returns [-ENFILE] and changes nothing; otherwise it takes the
    first unused handle, whose generation is below 2^15, sets its [used]
    byte to 1 and its [entity] field to the offset of the entity, and
    returns the generation times 65536 plus the index, a descriptor that
    [unpack_fd] takes back to the handle.  No other byte changes: the
    reference count of the entity stays as it was. *)
Theorem open_takes_first_free_handle (path : list Z) (n : nat) (s : State H)
    (r : Z) (comps : list (list Z)) (entity : Z) (i : nat) :
  let root := mem (fs s) in
  let m := memory s in
  let handle := handle_at root i in
  let gen := load16 m (handle + Handle_gen) in
  transaction (fs s) = TRANSACTION_OFF → patch_count (fs s) = 0%nat →
  parse_path (cstring path) pathcomps0 32 = Ret (r, comps) → 0 ≤ r →
  resolve (Z.to_nat (r - 1)) comps 0 (root + RPage_root) n s = Ret (inr entity, s) →
  entity ≠ NULL →
  Z.land (load32 m (entity + Entity_flags)) ENTITY_DIR = 0 →
  0 < root →
  (∀ k, (k < i)%nat → load8 m (handle_at root k + Handle_used) ≠ 0) →
  ((i = 333)%nat → open_ callback path n s = Ret (- COZYFS_ENFILE, s))
  ∧ ((i < 333)%nat → load8 m (handle + Handle_used) = 0 → 0 ≤ gen < 2 ^ 15 →
     ∃ s',
       open_ callback path n s = Ret (gen * 2 ^ 16 + Z.of_nat i, s')
       ∧ fs s' = fs s
       ∧ load8 (memory s') (handle + Handle_used) = 1
       ∧ load32 (memory s') (handle + Handle_entity) = u32 (entity - root)
       ∧ (∀ x, x ≠ handle + Handle_used →
               ¬ (handle + Handle_entity ≤ x < handle + Handle_entity + 4) →
               memory s' x = m x)
       ∧ unpack_fd (gen * 2 ^ 16 + Z.of_nat i) n s' = Ret (handle, s')).
Proof.
  intros root m handle gen Hoff Hcount Hparse Hr Hres He Hfile Hroot Hused.
  assert (
    open_ callback path n s
    = (let* m := get_mem in
       let i := scan_while (Z.to_nat COUNT_handles)
                  (λ i, negb (load8 m (handle_at root i + Handle_used) =? 0)) in
       if (i =? Z.to_nat COUNT_handles)%nat || (2 ^ 16 <=? Z.of_nat i)
       then ret (- COZYFS_ENFILE)
       else
         let* handle := writable_addr callback (handle_at root i) in
         if handle =? NULL then ret (- COZYFS_ENOMEM)
         else
           let* off := ptr2off entity in
           wr32 (handle + Handle_entity) off ;;
           wr8 (handle + Handle_used) 1 ;;
           pack_fd handle) n s) as Hopen.
  { unfold open_. rewrite Hparse. unfold lift_res.
    unfold bind at 1, ret at 1.
    destruct (Z.ltb_spec r 0); [lia|].
    unfold bind at 1, get_fs at 1. fold root.
    rewrite (bind_run _ _ _ _ _ _ Hres).
    unfold bind at 1, rd32 at 1, bind at 1, get_mem at 1, ret at 1. fold m.
    rewrite Hfile. done. }
  rewrite Hopen. clear Hopen. split.
  - intros ->. run_M. fold m. unfold scan_while.
    rewrite (scan_from_all _ 333 0).
    + done.
    + intros j Hj. apply negb_true_iff, Z.eqb_neq, Hused. lia.
  - intros Hi Hfree Hgen. run_M. fold m. unfold scan_while.
    rewrite (scan_from_first _ _ 0 i);
      [|unfold COUNT_handles; lia|fold handle; by rewrite Hfree|].
    2:{ intros q Hq. apply negb_true_iff, Z.eqb_neq, Hused. lia. }
    replace (i =? Z.to_nat COUNT_handles)%nat with false
      by (symmetry; apply Nat.eqb_neq; unfold COUNT_handles; lia).
    replace (2 ^ 16 <=? Z.of_nat i) with false by (symmetry; apply Z.leb_gt; lia).
    cbn [orb]. fold handle.
    rewrite (writable_addr_plain callback handle n s Hoff). run_M.
    assert (handle = root + 92 + 12 * Z.of_nat i) as Hh by done.
    destruct (Z.eqb_spec handle NULL); [unfold NULL in *; lia|].
    rewrite (ptr2off_plain entity n s Hcount He). run_M. fold root m.
    set (m2 := store8 (store32 m (handle + Handle_entity) (u32 (entity - root)))
                 (handle + Handle_used) 1).
    assert (load16 m2 (handle + Handle_gen) = gen) as Hgen2.
    { unfold gen, m2, load16, store8, store32.
      rewrite !loadn_storen_disj; [done|..];
        unfold Handle_gen, Handle_used, Handle_entity; simpl; lia. }
    set (s2 := mkState (fs s) m2 (host s) (calls s)).
    destruct (pack_unpack_run i n s2) as [Hpack Hunpack].
    { lia. }
    { cbn [s2 fs memory]. fold root handle. rewrite Hgen2. lia. }
    cbn [s2 fs memory] in Hpack, Hunpack. fold root handle in Hpack, Hunpack.
    rewrite Hgen2 in Hpack, Hunpack. fold s2.
    exists s2. split; [exact Hpack|]. cbn [s2 fs memory].
    split; [done|]. split; [|split; [|split]].
    + unfold m2, load8, store8. by rewrite loadn_storen.
    + unfold m2, load32, store8, store32.
      rewrite loadn_storen_disj by (unfold Handle_used, Handle_entity; simpl; lia).
      rewrite loadn_storen. unfold u32.
      change (256 ^ Z.of_nat 4) with (2 ^ 32). apply Z.mod_mod. lia.
    + intros x Hx1 Hx2. unfold m2, store8, store32.
      rewrite !storen_other; [done|..];
        unfold Handle_used, Handle_entity in *; simpl; lia.
    + exact Hunpack.
Qed.

End OpenExtras.

Lemma open_takes_first_free_handle_witness :
  ∃ s',
    open_ cozyfs_callback_impl path_a_b fuel0 open_file_state
    = Ret (load16 (memory open_file_state)
             (handle_at (mem (fs open_file_state)) 1 + Handle_gen) * 2 ^ 16
           + Z.of_nat 1, s')
    ∧ load8 (memory s') (handle_at (mem (fs open_file_state)) 1 + Handle_used) = 1.
Proof.
  assert (parse_path (cstring path_a_b) pathcomps0 32
          = Ret (2, <[1%nat := [98]]> (<[0%nat := [97]]> pathcomps0))) as Hparse
    by (vm_compute; reflexivity).
  assert (resolve (Z.to_nat (2 - 1)) (<[1%nat := [98]]> (<[0%nat := [97]]> pathcomps0))
            0 (mem (fs open_file_state) + RPage_root) fuel0 open_file_state
          = Ret (inr first_entity, open_file_state)) as Hres
    by (vm_compute; reflexivity).
  destruct (proj2 (open_takes_first_free_handle cozyfs_callback_impl path_a_b fuel0
              open_file_state 2 _ first_entity 1
              eq_refl eq_refl Hparse ltac:(lia) Hres
              ltac:(vm_compute; discriminate) ltac:(vm_compute; reflexivity)
              ltac:(vm_compute; reflexivity)
              ltac:(intros k Hk; assert (k = 0%nat) as -> by lia;
                    vm_compute; discriminate)))
    as (s' & Hrun & _ & Hused & _).
  - lia.
  - vm_compute. reflexivity.
  - vm_compute. split; [discriminate|reflexivity].
  - exists s'. split; [exact Hrun|exact Hused].
Defined.


(** ** Pages and users *)

Section UserExtras.

Context {H : Type} (callback : SysOp → Z → Z → H → Z * H).

Lemma get_root_first_half (n : nat) (s : State H) :
  to_int (load32 (memory s) (mem (fs s) + RPage_backup)) ≠ BACKUP_HALF_INACTIVE →
  get_root n s = Ret (mem (fs s), s).
Proof.
  intros Hflag. unfold get_root. run_M.
  by destruct (Z.eqb_spec (to_int (load32 (memory s) (mem (fs s) + RPage_backup)))
                 BACKUP_HALF_INACTIVE).
Qed.

(** X16. Outside a transaction, with the first half active and no page
    on the free list: [allocate_page] returns the null pointer and
    changes nothing when all [tot_pages] pages are in use, and otherwise
    returns the page after the [num_pages] in use and adds one to
    [num_pages], changing no other byte. *)
Theorem allocate_page_takes_next (n : nat) (s : State H) :
  let root := mem (fs s) in
  let m := memory s in
  let num := to_int (load32 m (root + RPage_num_pages)) in
  let tot := to_int (load32 m (root + RPage_tot_pages)) in
  transaction (fs s) = TRANSACTION_OFF →
  to_int (load32 m (root + RPage_backup)) ≠ BACKUP_HALF_INACTIVE →
  load32 m (root + RPage_free_pages) = INVALID_OFFSET →
  root ≠ NULL →
  (num = tot → allocate_page callback n s = Ret (NULL, s))
  ∧ (num ≠ tot →
     allocate_page callback n s
     = Ret (root + PAGE * num,
            mkState (fs s) (store32 m (root + RPage_num_pages) (u32 (num + 1)))
              (host s) (calls s))).
Proof.
  intros root m num tot Hoff Hflag Hfree Hroot.
  unfold allocate_page. run_M.
  rewrite (get_root_first_half n s Hflag). run_M. fold root m.
  rewrite Hfree, Z.eqb_refl. fold num tot. split.
  - intros ->. by rewrite Z.eqb_refl.
  - intros Hne. destruct (Z.eqb_spec num tot); [done|]. cbn [andb].
    rewrite (writable_addr_plain callback root n s Hoff). run_M.
    destruct (Z.eqb_spec root NULL); [done|]. fold m.
    rewrite Hfree, Z.eqb_refl.
    rewrite (get_root_first_half n s Hflag). run_M. done.
Qed.

(** X17. Outside a transaction, with the first half active, a user page
    at the tail of the list with room in it, and a name of fewer than 30
    bytes: [create_user] returns 0, fills the next record of the page
    with the next account id (as 16 bits) and the name with its NUL, and
    adds one to [tail_upage_used] and to [next_account_id]; no byte
    outside these two fields and the record changes. *)
Theorem create_user_appends (name : list Z) (n : nat) (s : State H) :
  let root := mem (fs s) in
  let m := memory s in
  let used := load32 m (root + RPage_tail_upage_used) in
  let id := load32 m (root + RPage_next_account_id) in
  let tail := load32 m (root + RPage_tail_upage) in
  let upage := root + tail in
  let user := upage + UPage_users + sizeof_User * used in
  transaction (fs s) = TRANSACTION_OFF → patch_count (fs s) = 0%nat →
  to_int (load32 m (root + RPage_backup)) ≠ BACKUP_HALF_INACTIVE →
  root ≠ NULL → tail ≠ INVALID_OFFSET →
  0 ≤ used < COUNT_users →
  (upage + 4096 ≤ root ∨ root + 4096 ≤ upage) →
  Forall (λ b, 0 < b < 256) (cstring name) →
  (length (cstring name) < 30)%nat →
  ∃ s',
    create_user callback name n s = Ret (0, s')
    ∧ fs s' = fs s
    ∧ load32 (memory s') (root + RPage_tail_upage_used) = u32 (used + 1)
    ∧ load32 (memory s') (root + RPage_next_account_id) = u32 (id + 1)
    ∧ load16 (memory s') (user + User_id) = u16 id
    ∧ name_at (memory s') (user + User_name) (cstring name)
    ∧ (∀ x, ¬ (root + RPage_tail_upage_used ≤ x < root + RPage_tail_upage_used + 4) →
            ¬ (root + RPage_next_account_id ≤ x < root + RPage_next_account_id + 4) →
            ¬ (user ≤ x < user + sizeof_User) → memory s' x = m x).
Proof.
  intros root m used id tail upage user Hoff Hcount Hflag Hroot Htail Hused Hapart
    Hb Hlen.
  set (m1 := store32 m (root + RPage_tail_upage_used) (u32 (used + 1))).
  set (m2 := store32 m1 (root + RPage_next_account_id) (u32 (id + 1))).
  set (m3 := store16 m2 (user + User_id) (u16 id)).
  set (m5 := store_bytes (my_memset m3 (user + User_name) 0 MAX_USER_NAME)
               (user + User_name) (cstring name)).
  assert (COUNT_users = 127) as Hcu by done. rewrite Hcu in Hused.
  assert (user = upage + 12 + 32 * used) as Huser by done.
  exists (mkState (fs s) m5 (host s) (calls s)).
  assert (create_user callback name n s
          = Ret (0, mkState (fs s) m5 (host s) (calls s))) as Hrun.
  { unfold create_user. run_M.
    rewrite (get_root_first_half n s Hflag). run_M. fold root m.
    destruct (Z.leb_spec MAX_USER_NAME (Z.of_nat (length (cstring name))));
      [unfold MAX_USER_NAME in *; lia|].
    run_M. fold m. fold used.
    destruct (Z.eqb_spec used COUNT_users); [lia|]. run_M. fold m. fold tail.
    rewrite (off2ptr_plain tail n s Hcount Htail). run_M. fold root upage.
    rewrite (writable_addr_plain callback root n s Hoff). run_M.
    destruct (Z.eqb_spec root NULL); [done|]. run_M. fold m used. fold m1.
    assert (load32 m1 (root + RPage_next_account_id) = id) as ->.
    { unfold m1, id, load32, store32.
      apply loadn_storen_disj.
      unfold RPage_next_account_id, RPage_tail_upage_used. simpl. lia. }
    fold m2 user. fold m3. fold m5. done. }
  assert (∀ x, ¬ (user + User_name ≤ x < user + User_name + 30) → m5 x = m3 x) as H53.
  { intros x Hx. unfold m5, MAX_USER_NAME.
    rewrite store_bytes_other by lia. rewrite my_memset_spec by lia.
    destruct (Z.leb_spec (user + User_name) x), (Z.ltb_spec x (user + User_name + 30));
      cbn [andb]; try lia; done. }
  assert (∀ k a, root ≤ a → a + Z.of_nat k ≤ root + 4096 →
            loadn k m5 a = loadn k m2 a) as Hroot5.
  { intros k a Ha1 Ha2. apply loadn_ext. intros x Hx.
    rewrite H53 by (unfold User_name; lia).
    unfold m3, store16. apply storen_other. unfold User_id. simpl. lia. }
  split; [done|]. cbn [fs memory]. split; [done|].
  split; [|split; [|split; [|split]]].
  - unfold load32. rewrite Hroot5 by (unfold RPage_tail_upage_used; simpl; lia).
    unfold m2, m1, store32.
    rewrite loadn_storen_disj
      by (unfold RPage_next_account_id, RPage_tail_upage_used; simpl; lia).
    rewrite loadn_storen. apply Z.mod_mod. lia.
  - unfold load32. rewrite Hroot5 by (unfold RPage_next_account_id; simpl; lia).
    unfold m2, store32. rewrite loadn_storen. apply Z.mod_mod. lia.
  - unfold load16. rewrite (loadn_ext 2 m5 m3).
    + unfold m3, store16. rewrite loadn_storen. apply Z.mod_mod. lia.
    + intros x Hx. apply H53. unfold User_id, User_name in *. simpl in Hx. lia.
  - split; [done|]. split.
    + intros q b Hq. unfold m5. rewrite (store_bytes_at _ _ _ _ b Hq).
      rewrite Forall_lookup in Hb. specialize (Hb q b Hq). simpl in Hb.
      unfold u8. apply Z.mod_small. lia.
    + unfold m5, MAX_USER_NAME. rewrite store_bytes_other by lia.
      rewrite my_memset_spec by lia.
      destruct (Z.leb_spec (user + User_name)
                  (user + User_name + Z.of_nat (length (cstring name)))),
        (Z.ltb_spec (user + User_name + Z.of_nat (length (cstring name)))
           (user + User_name + 30)); cbn [andb]; try lia; done.
  - intros x Hx1 Hx2 Hx3.
    rewrite H53 by (unfold User_name, sizeof_User in *; lia).
    unfold m3, m2, m1, store16, store32.
    rewrite !storen_other; [done|..];
      unfold User_id, sizeof_User in *; simpl; lia.
Qed.

End UserExtras.

Lemma allocate_page_takes_next_witness :
  allocate_page cozyfs_callback_impl fuel0 fixture_state
  = Ret (mem (fs fixture_state)
         + PAGE * to_int (load32 (memory fixture_state)
                            (mem (fs fixture_state) + RPage_num_pages)),
         mkState (fs fixture_state)
           (store32 (memory fixture_state) (mem (fs fixture_state) + RPage_num_pages)
              (u32 (to_int (load32 (memory fixture_state)
                              (mem (fs fixture_state) + RPage_num_pages)) + 1)))
           (host fixture_state) (calls fixture_state))
  ∧ to_int (load32 (memory fixture_state) (mem (fs fixture_state) + RPage_num_pages)) = 3.
Proof.
  split; [|vm_compute; reflexivity].
  apply (allocate_page_takes_next cozyfs_callback_impl fuel0 fixture_state).
  - reflexivity.
  - vm_compute. discriminate.
  - vm_compute. reflexivity.
  - vm_compute. discriminate.
  - vm_compute. discriminate.
Defined.

Lemma create_user_appends_witness :
  ∃ s',
    create_user cozyfs_callback_impl name_bob fuel0 fixture_state = Ret (0, s')
    ∧ load32 (memory s') (mem (fs fixture_state) + RPage_tail_upage_used)
      = u32 (load32 (memory fixture_state)
               (mem (fs fixture_state) + RPage_tail_upage_used) + 1).
Proof.
  destruct (create_user_appends cozyfs_callback_impl name_bob fuel0 fixture_state)
    as (s' & Hrun & _ & Hused & _).
  - reflexivity.
  - reflexivity.
  - vm_compute. discriminate.
  - vm_compute. discriminate.
  - vm_compute. discriminate.
  - vm_compute. split; [discriminate|reflexivity].
  - right. vm_compute. discriminate.
  - vm_compute. repeat constructor.
  - vm_compute. lia.
  - exists s'. split; [exact Hrun|exact Hused].
Defined.

(** ** Paths that are refused *)

Section PathErrors.

Context {H : Type} (callback : SysOp → Z → Z → H → Z * H).

(** X18. What the parser refuses, the operations refuse.  When
    [parse_path] gives no component for the path (the root, count 0) or
    an error, [mkdir_], [rmdir_] and [unlink_] return [-EPERM] for the
    root and the parser's error otherwise, [open_] and [link_] return
    the parser's error, which is [-EINVAL] or [-ENOMEM]; none of them
    changes the state. *)
Theorem path_errors_reach_the_caller (path other : list Z) (n : nat) (s : State H)
    (r : Z) (comps : list (list Z)) :
  parse_path (cstring path) pathcomps0 32 = Ret (r, comps) → r ≤ 0 →
  let code := if r =? 0 then - COZYFS_EPERM else r in
  (r = 0 ∨ r = - COZYFS_EINVAL ∨ r = - COZYFS_ENOMEM)
  ∧ mkdir_ callback path n s = Ret (code, s)
  ∧ rmdir_ callback path n s = Ret (code, s)
  ∧ unlink_ callback path n s = Ret (code, s)
  ∧ (r < 0 →
     open_ callback path n s = Ret (r, s)
     ∧ link_ callback path other n s = Ret (r, s)).
Proof.
  intros Hparse Hr code.
  destruct (parse_path_cases (cstring path) pathcomps0 32 eq_refl)
    as (r' & comps' & Hrun & _ & Hcases).
  rewrite Hparse in Hrun. injection Hrun as <- <-.
  assert (r = 0 ∨ r = - COZYFS_EINVAL ∨ r = - COZYFS_ENOMEM) as Hcode.
  { destruct Hcases as [[-> | ->]|[Hpos _]]; [by auto..|]. left. lia. }
  split; [done|].
  unfold mkdir_, rmdir_, unlink_, open_, link_. rewrite Hparse.
  unfold lift_res. run_M. subst code.
  destruct Hcode as [-> | [-> | ->]]; repeat split; try done; try lia.
Qed.

End PathErrors.

Lemma path_errors_reach_the_caller_witness :
  mkdir_ cozyfs_callback_impl [slash] fuel0 fixture_state
  = Ret (- COZYFS_EPERM, fixture_state)
  ∧ unlink_ cozyfs_callback_impl [slash] fuel0 fixture_state
    = Ret (- COZYFS_EPERM, fixture_state).
Proof.
  destruct (path_errors_reach_the_caller cozyfs_callback_impl [slash] [] fuel0
              fixture_state 0 pathcomps0 eq_refl ltac:(lia))
    as (_ & Hmkdir & _ & Hunlink & _).
  split; [exact Hmkdir|exact Hunlink].
Defined.
